(** * McMocknald order kiosk: priority dispatch queue and cook assignment

    A shallow embedding of [pkg/queue/priority_queue.go],
    [internal/domain], [internal/infrastructure/memory] and
    [internal/service/cook_service.go], with the properties of the dispatch
    queue and of the assignment protocol proved over it.

    Conventions of the embedding.
    - A Go [int] is a [Z].  The only counter the code maintains, the queue's
      [size], is bounded by the number of pointers held in two slices, so it
      stays far below 2^63 and no wrap-around is written out.
    - A [*domain.Order] is an [option loc]: [None] is the nil pointer and
      [Some l] points at the order stored at address [l] of the heap.  Orders
      are shared between the queue and the repository, so that a status
      written through the repository is seen through the pointer the queue
      handed out.
    - Every method that takes the mutex is one atomic state transformer; the
      lock itself is not modelled.
    - Fields that the queue and the cook service never read are left out:
      the time stamps [CreatedAt] and [ModifiedAt], and the [Foods] of an
      order.  [DeletedAt] is kept, with the clock reading passed in.
    - Logging has no effect on the state and is left out. *)

From stdpp Require Import gmap strings list fin_maps sorting pretty.
From Stdlib Require Import ZArith Lia.

Open Scope string_scope.
Open Scope list_scope.
Open Scope Z_scope.

(** ** Errors *)

(** Go errors.  [ErrEmptyQueue] and [ErrNilOrder] are the two sentinel values
    of package [queue]; the other constructors follow the three shapes of
    [fmt.Errorf] the code uses: [Errorf m] is [fmt.Errorf(m)], [ErrorfInt m n]
    is [fmt.Errorf(m + ": %d", n)] and [ErrorfWrap m e] is
    [fmt.Errorf(m + ": %w", e)]. *)
Inductive error : Type :=
| ErrEmptyQueue
| ErrNilOrder
| Errorf (msg : string)
| ErrorfInt (msg : string) (n : Z)
| ErrorfWrap (msg : string) (e : error).

(** ** Package domain *)

Module domain.

Definition RoleType := string.

Definition RoleRegularCustomer : RoleType := "Regular Customer".
Definition RoleVIPCustomer : RoleType := "VIP Customer".
Definition RoleCook : RoleType := "Cook".

Record User : Type := mkUser {
  User_ID : Z;
  User_Name : string;
  User_Role : RoleType;
  User_DeletedAt : option Z
}.

Definition IsCustomer (u : User) : bool :=
  String.eqb (User_Role u) RoleRegularCustomer
  || String.eqb (User_Role u) RoleVIPCustomer.

Definition IsVIP (u : User) : bool := String.eqb (User_Role u) RoleVIPCustomer.

Definition IsCook (u : User) : bool := String.eqb (User_Role u) RoleCook.

(** [IsDeleted] of [User]. *)
Definition IsDeleted (u : User) : bool :=
  match User_DeletedAt u with Some _ => true | None => false end.

Definition OrderStatus := string.

Definition OrderStatusPending : OrderStatus := "PENDING".
Definition OrderStatusServing : OrderStatus := "SERVING".
Definition OrderStatusComplete : OrderStatus := "COMPLETE".

Record Order : Type := mkOrder {
  ID : Z;
  Status : OrderStatus;
  AssignedCookUser : option Z;
  OrderedBy : Z;
  DeletedAt : option Z;
  CustomerName : string;
  CustomerRole : RoleType;
  CookName : string
}.

Definition IsPending (o : Order) : bool := String.eqb (Status o) OrderStatusPending.
Definition IsServing (o : Order) : bool := String.eqb (Status o) OrderStatusServing.
Definition IsComplete (o : Order) : bool := String.eqb (Status o) OrderStatusComplete.

Definition HasAssignedCook (o : Order) : bool :=
  match AssignedCookUser o with Some _ => true | None => false end.

(** Field updates through a pointer: [order.Status = s] and
    [order.AssignedCookUser = c]. *)
Definition set_Status (s : OrderStatus) (o : Order) : Order :=
  mkOrder (ID o) s (AssignedCookUser o) (OrderedBy o) (DeletedAt o)
          (CustomerName o) (CustomerRole o) (CookName o).

Definition set_AssignedCookUser (c : option Z) (o : Order) : Order :=
  mkOrder (ID o) (Status o) c (OrderedBy o) (DeletedAt o)
          (CustomerName o) (CustomerRole o) (CookName o).

(** The zero value [domain.Order{}]. *)
Definition zeroOrder : Order := mkOrder 0 "" None 0 None "" "" "".

(** Further field updates through a pointer: [order.ID = id],
    [order.CustomerName = n], [order.CustomerRole = r] and
    [order.CookName = n]. *)
Definition set_ID (id : Z) (o : Order) : Order :=
  mkOrder id (Status o) (AssignedCookUser o) (OrderedBy o) (DeletedAt o)
          (CustomerName o) (CustomerRole o) (CookName o).

Definition set_CustomerName (n : string) (o : Order) : Order :=
  mkOrder (ID o) (Status o) (AssignedCookUser o) (OrderedBy o) (DeletedAt o)
          n (CustomerRole o) (CookName o).

Definition set_CustomerRole (r : RoleType) (o : Order) : Order :=
  mkOrder (ID o) (Status o) (AssignedCookUser o) (OrderedBy o) (DeletedAt o)
          (CustomerName o) r (CookName o).

Definition set_CookName (n : string) (o : Order) : Order :=
  mkOrder (ID o) (Status o) (AssignedCookUser o) (OrderedBy o) (DeletedAt o)
          (CustomerName o) (CustomerRole o) n.

Definition FoodType := string.

Definition FoodTypeFood : FoodType := "Food".
Definition FoodTypeDrink : FoodType := "Drink".
Definition FoodTypeDessert : FoodType := "Dessert".

Record Food : Type := mkFood {
  Food_ID : Z;
  Food_Name : string;
  Food_Type : FoodType;
  Food_DeletedAt : option Z
}.

(** [IsDeleted] of [Food]. *)
Definition Food_IsDeleted (f : Food) : bool :=
  match Food_DeletedAt f with Some _ => true | None => false end.

End domain.

Import domain.

#[global] Instance Order_inhabited : Inhabited Order := populate zeroOrder.

(** ** The heap of orders *)

Definition loc := positive.

(** The orders allocated so far, by address.  [h !!! l] reads through a
    pointer; Go has no dangling pointers, so only allocated addresses are
    ever read, and elsewhere the total lookup gives the zero order. *)
Abbreviation heap := (gmap positive Order).

(** [order.CustomerRole == domain.RoleVIPCustomer] for the order at [l]. *)
Definition isVIPOrder (h : heap) (l : loc) : bool :=
  String.eqb (CustomerRole (h !!! l)) RoleVIPCustomer.

(** ** Package queue *)

Module queue.

(** The two slices hold the pointers accepted by [Enqueue] and
    [EnqueueAtFront]; both reject nil before touching them, so their
    elements are addresses.  The capacity of a slice is not part of the
    state: the slot that [Dequeue] clears lies before the new start of the
    slice, and its reallocation copies the same elements. *)
Record PriorityQueue : Type := mkPQ {
  vipOrders : list loc;
  regularOrders : list loc;
  size : Z
}.

Definition NewPriorityQueue : PriorityQueue := mkPQ [] [] 0.

Definition Enqueue (h : heap) (order : option loc) (pq : PriorityQueue)
  : PriorityQueue * option error :=
  match order with
  | None => (pq, Some ErrNilOrder)
  | Some l =>
      if isVIPOrder h l
      then (mkPQ (vipOrders pq ++ [l]) (regularOrders pq) (size pq + 1), None)
      else (mkPQ (vipOrders pq) (regularOrders pq ++ [l]) (size pq + 1), None)
  end.

Definition Dequeue (pq : PriorityQueue)
  : PriorityQueue * (option loc * option error) :=
  if size pq =? 0 then (pq, (None, Some ErrEmptyQueue))
  else
    match vipOrders pq with
    | l :: rest => (mkPQ rest (regularOrders pq) (size pq - 1), (Some l, None))
    | [] =>
        match regularOrders pq with
        | l :: rest => (mkPQ (vipOrders pq) rest (size pq - 1), (Some l, None))
        | [] => (mkPQ (vipOrders pq) (regularOrders pq) (size pq - 1), (None, None))
        end
    end.

Definition EnqueueAtFront (h : heap) (order : option loc) (pq : PriorityQueue)
  : PriorityQueue * option error :=
  match order with
  | None => (pq, Some ErrNilOrder)
  | Some l =>
      if isVIPOrder h l
      then (mkPQ ([l] ++ vipOrders pq) (regularOrders pq) (size pq + 1), None)
      else (mkPQ (vipOrders pq) ([l] ++ regularOrders pq) (size pq + 1), None)
  end.

Definition Size (pq : PriorityQueue) : Z := size pq.

Definition IsEmpty (pq : PriorityQueue) : bool := size pq =? 0.

Definition Peek (pq : PriorityQueue) : option loc * option error :=
  if size pq =? 0 then (None, Some ErrEmptyQueue)
  else
    match vipOrders pq with
    | l :: _ => (Some l, None)
    | [] =>
        match regularOrders pq with
        | l :: _ => (Some l, None)
        | [] => (None, Some ErrEmptyQueue)
        end
    end.

(** *** Runs of queue operations *)

(** The six operations of the [OrderQueue] interface, as data. *)
Inductive op : Type :=
| OpEnqueue (order : option loc)
| OpEnqueueAtFront (order : option loc)
| OpDequeue
| OpPeek
| OpSize
| OpIsEmpty.

(** One call: the state it leaves and the error it returned, if any. *)
Definition run_op (h : heap) (o : op) (pq : PriorityQueue)
  : PriorityQueue * option error :=
  match o with
  | OpEnqueue order => Enqueue h order pq
  | OpEnqueueAtFront order => EnqueueAtFront h order pq
  | OpDequeue => let '(pq', (_, err)) := Dequeue pq in (pq', err)
  | OpPeek => (pq, snd (Peek pq))
  | OpSize => (pq, None)
  | OpIsEmpty => (pq, None)
  end.

Fixpoint run_ops (h : heap) (os : list op) (pq : PriorityQueue) : PriorityQueue :=
  match os with
  | [] => pq
  | o :: os' => run_ops h os' (fst (run_op h o pq))
  end.

Definition succeeded (r : option error) : bool :=
  match r with None => true | Some _ => false end.

(** Number of enqueues (front inserts included) of a run that returned a nil
    error, and number of dequeues that did. *)
Fixpoint enqueued_ok (h : heap) (os : list op) (pq : PriorityQueue) : Z :=
  match os with
  | [] => 0
  | o :: os' =>
      let '(pq', err) := run_op h o pq in
      (match o with
       | OpEnqueue _ | OpEnqueueAtFront _ => if succeeded err then 1 else 0
       | _ => 0
       end) + enqueued_ok h os' pq'
  end.

Fixpoint dequeued_ok (h : heap) (os : list op) (pq : PriorityQueue) : Z :=
  match os with
  | [] => 0
  | o :: os' =>
      let '(pq', err) := run_op h o pq in
      (match o with
       | OpDequeue => if succeeded err then 1 else 0
       | _ => 0
       end) + dequeued_ok h os' pq'
  end.

(** [Enqueue] of each pointer of [ls] in turn. *)
Fixpoint EnqueueAll (h : heap) (ls : list loc) (pq : PriorityQueue) : PriorityQueue :=
  match ls with
  | [] => pq
  | l :: ls' => EnqueueAll h ls' (fst (Enqueue h (Some l) pq))
  end.

(** [n] calls of [Dequeue] in a row: what each returned, and the final
    state. *)
Fixpoint DequeueN (n : nat) (pq : PriorityQueue)
  : list (option loc * option error) * PriorityQueue :=
  match n with
  | O => ([], pq)
  | S n' =>
      let '(pq1, r) := Dequeue pq in
      let '(rs, pq2) := DequeueN n' pq1 in
      (r :: rs, pq2)
  end.

(** A call that returned the order at [l] and a nil error. *)
Definition served (l : loc) : option loc * option error := (Some l, None).

(** *** Invariants *)

(** I2: the counter equals the number of queued pointers. *)
Definition size_consistent (pq : PriorityQueue) : Prop :=
  size pq = Z.of_nat (length (vipOrders pq) + length (regularOrders pq)).

(** I1: every pointer sits in the tier of its order's role. *)
Definition tiers_sorted (h : heap) (pq : PriorityQueue) : Prop :=
  Forall (fun l => isVIPOrder h l = true) (vipOrders pq)
  /\ Forall (fun l => isVIPOrder h l = false) (regularOrders pq).

(** The slice of a tier: the VIP one for [true]. *)
Definition tier (vip : bool) (pq : PriorityQueue) : list loc :=
  if vip then vipOrders pq else regularOrders pq.

(** The states a queue goes through, with the heap of the moment:
    [NewPriorityQueue] followed by any calls of the mutating methods, while
    the orders may be written to in between, in any way that keeps the role
    stamped on them when they were created. *)
Inductive Reachable : heap -> PriorityQueue -> Prop :=
| Reachable_new h : Reachable h NewPriorityQueue
| Reachable_Enqueue h pq order :
    Reachable h pq -> Reachable h (fst (Enqueue h order pq))
| Reachable_EnqueueAtFront h pq order :
    Reachable h pq -> Reachable h (fst (EnqueueAtFront h order pq))
| Reachable_Dequeue h pq :
    Reachable h pq -> Reachable h (fst (Dequeue pq))
| Reachable_write h h' pq :
    Reachable h pq ->
    (forall l, CustomerRole (h' !!! l) = CustomerRole (h !!! l)) ->
    Reachable h' pq.

(** The orders returned by the dequeues of a run, in the order of the
    calls. *)
Fixpoint returned (h : heap) (os : list op) (pq : PriorityQueue) : list loc :=
  match os with
  | [] => []
  | o :: os' =>
      let rest := returned h os' (fst (run_op h o pq)) in
      match o with
      | OpDequeue =>
          match fst (snd (Dequeue pq)) with
          | Some l => l :: rest
          | None => rest
          end
      | _ => rest
      end
  end.

(** The orders handed to [Enqueue] in a run, in the order of the calls. *)
Fixpoint accepted (os : list op) : list loc :=
  match os with
  | [] => []
  | OpEnqueue (Some l) :: os' => l :: accepted os'
  | _ :: os' => accepted os'
  end.

(** A run without front inserts. *)
Definition no_front (os : list op) : Prop :=
  Forall (fun o => match o with OpEnqueueAtFront _ => False | _ => True end) os.

(** The orders of [ls] whose tier is [vip]. *)
Definition of_tier (h : heap) (vip : bool) (ls : list loc) : list loc :=
  filter (fun l => isVIPOrder h l = vip) ls.

(** The orders a queue holds, in the order a drain returns them. *)
Definition queued (pq : PriorityQueue) : list loc :=
  vipOrders pq ++ regularOrders pq.

(** The orders handed to [Enqueue] or [EnqueueAtFront] in a run, in the
    order of the calls. *)
Fixpoint admitted (os : list op) : list loc :=
  match os with
  | [] => []
  | OpEnqueue (Some l) :: os' => l :: admitted os'
  | OpEnqueueAtFront (Some l) :: os' => l :: admitted os'
  | _ :: os' => admitted os'
  end.

(** [EnqueueAtFront] of each pointer of [ls] in turn. *)
Fixpoint EnqueueAtFrontAll (h : heap) (ls : list loc) (pq : PriorityQueue)
  : PriorityQueue :=
  match ls with
  | [] => pq
  | l :: ls' => EnqueueAtFrontAll h ls' (fst (EnqueueAtFront h (Some l) pq))
  end.

End queue.

Import queue.

(** ** Repository interfaces *)

(** A call either returns, leaving a state behind, or panics on a nil
    pointer dereference. *)
Inductive outcome (W A : Type) : Type :=
| Returns (w : W) (a : A)
| Panics.
Arguments Returns {W A} w a.
Arguments Panics {W A}.

(** The methods of [domain.UserRepository] and [domain.OrderRepository] that
    the cook service calls.  [S] is the state behind the two repository
    handles (two in-memory maps, or one database); the order repository
    also sees the heap, since it may write to, or allocate, orders. *)
Class UserRepository (S : Type) : Type := {
  GetByID : Z -> S -> S * (option User * option error);
  SoftDelete : Z -> Z -> S -> S * option error
}.

Class OrderRepository (S : Type) : Type := {
  GetByCookID : Z -> S -> heap -> (S * heap) * (list loc * option error);
  AssignCook : Z -> Z -> S -> heap -> (S * heap) * option error;
  UnassignCook : Z -> S -> heap -> (S * heap) * option error;
  UpdateStatus : Z -> OrderStatus -> S -> heap -> (S * heap) * option error
}.

(** The further methods of the repository interfaces, called when cooks and
    orders are created, when a cook is reinstated and when the worker pool
    is started, and the method of [domain.FoodRepository] that the order
    service calls. *)
Class UserRepositoryAdmin (S : Type) : Type := {
  user_Create : User -> S -> S * (option User * option error);
  Reinstate : Z -> S -> S * option error;
  GetAllCooks : bool -> S -> S * (list User * option error)
}.

Class OrderRepositoryAdmin (S : Type) : Type := {
  order_Create : loc -> list Z -> S -> heap -> (S * heap) * (option loc * option error);
  order_GetByID : Z -> S -> heap -> (S * heap) * (option loc * option error);
  order_GetStats : S -> heap -> S * (Z * Z * option error)
}.

Class FoodRepository (S : Type) : Type := {
  food_GetByID : Z -> S -> S * (option Food * option error)
}.

(** ** Package memory *)

Module memory.

Definition set_User_DeletedAt (d : option Z) (u : User) : User :=
  mkUser (User_ID u) (User_Name u) (User_Role u) d.

(** The state of the two in-memory repositories that the cook service
    reaches: the map of users and the map of orders (the ID counters and
    [orderFoods] are only used when users and orders are created).
    [orders] is a Go map from order ID to order pointer.  It is kept as a
    list of bindings with distinct keys, whose order stands for the order in
    which a [range] over the map visits them: Go leaves that order
    unspecified, and a statement over every store covers every choice. *)
Record Store : Type := mkStore {
  users : gmap Z User;
  orders : list (Z * loc)
}.

(** [r.orders[id]] *)
Fixpoint orders_lookup (id : Z) (m : list (Z * loc)) : option loc :=
  match m with
  | [] => None
  | (k, l) :: m' => if k =? id then Some l else orders_lookup id m'
  end.

(** The assigned-cook test of [GetByCookID]. *)
Definition assigned_to (h : heap) (cookID : Z) (l : loc) : bool :=
  match AssignedCookUser (h !!! l) with
  | Some c => c =? cookID
  | None => false
  end.

(** [r.orders[id] = order] *)
Fixpoint orders_insert (id : Z) (order : loc) (m : list (Z * loc)) : list (Z * loc) :=
  match m with
  | [] => [(id, order)]
  | (k, l) :: m' =>
      if k =? id then (id, order) :: m' else (k, l) :: orders_insert id order m'
  end.

(** The three in-memory repositories in full: the maps of [Store], the ID
    counters, the food IDs of each order and the map of foods. *)
Record Repositories : Type := mkRepos {
  store : Store;
  user_nextID : Z;
  order_nextID : Z;
  orderFoods : gmap Z (list Z);
  foods : gmap Z Food;
  food_nextID : Z
}.

(** [NewUserRepository], [NewOrderRepository] and [NewFoodRepository]. *)
Definition NewRepositories : Repositories :=
  mkRepos (mkStore ∅ []) 1 1 ∅ ∅ 1.

Definition with_store (s : Store) (r : Repositories) : Repositories :=
  mkRepos s (user_nextID r) (order_nextID r) (orderFoods r) (foods r) (food_nextID r).

(** A method that reaches the maps of [Store] only, on the full state. *)
Definition on_store {A : Type} (f : Store -> Store * A) (r : Repositories)
  : Repositories * A :=
  let '(s, a) := f (store r) in (with_store s r, a).

Definition on_store_heap {A : Type} (f : Store -> heap -> (Store * heap) * A)
    (r : Repositories) (h : heap) : (Repositories * heap) * A :=
  let '((s, h'), a) := f (store r) h in ((with_store s r, h'), a).

(** The users of the map, in the order a [range] visits them.  Go leaves
    that order unspecified; the one taken here is the order of the keys. *)
Definition users_range (s : Store) : list User := (map_to_list (users s)).*2.

Module UserRepository.

Definition Create (user : User) (r : Repositories)
  : Repositories * (option User * option error) :=
  let user' := mkUser (user_nextID r) (User_Name user) (User_Role user)
                      (User_DeletedAt user) in
  (mkRepos (mkStore (<[user_nextID r := user']> (users (store r))) (orders (store r)))
           (user_nextID r + 1) (order_nextID r) (orderFoods r) (foods r) (food_nextID r),
   (Some user', None)).

Definition GetByRole (role : RoleType) (s : Store) : Store * (list User * option error) :=
  (s, (filter (fun user => String.eqb (User_Role user) role
                           && negb (IsDeleted user) = true) (users_range s), None)).

Definition GetAllCooks (includeDeleted : bool) (s : Store)
  : Store * (list User * option error) :=
  (s, (filter (fun user => String.eqb (User_Role user) RoleCook
                           && (includeDeleted || negb (IsDeleted user)) = true)
              (users_range s), None)).

Definition Update (user : User) (s : Store) : Store * option error :=
  match users s !! User_ID user with
  | None => (s, Some (ErrorfInt "user not found" (User_ID user)))
  | Some _ => (mkStore (<[User_ID user := user]> (users s)) (orders s), None)
  end.

Definition Reinstate (id : Z) (s : Store) : Store * option error :=
  match users s !! id with
  | None => (s, Some (ErrorfInt "user not found" id))
  | Some user =>
      (mkStore (<[id := set_User_DeletedAt None user]> (users s)) (orders s), None)
  end.

Definition GetByID (id : Z) (s : Store) : Store * (option User * option error) :=
  match users s !! id with
  | None => (s, (None, Some (ErrorfInt "user not found" id)))
  | Some user => (s, (Some user, None))
  end.

Definition SoftDelete (now : Z) (id : Z) (s : Store) : Store * option error :=
  match users s !! id with
  | None => (s, Some (ErrorfInt "user not found" id))
  | Some user =>
      (mkStore (<[id := set_User_DeletedAt (Some now) user]> (users s)) (orders s), None)
  end.

End UserRepository.

Module OrderRepository.

Definition Create (order : loc) (foodIDs : list Z) (r : Repositories) (h : heap)
  : (Repositories * heap) * (option loc * option error) :=
  let id := order_nextID r in
  let o := set_ID id (h !!! order) in
  let o' := if String.eqb (Status o) "" then set_Status OrderStatusPending o else o in
  ((mkRepos (mkStore (users (store r)) (orders_insert id order (orders (store r))))
            (user_nextID r) (id + 1)
            (if (0 <? Z.of_nat (length foodIDs)) then <[id := foodIDs]> (orderFoods r)
             else orderFoods r)
            (foods r) (food_nextID r),
    <[order := o']> h),
   (Some order, None)).

(** [GetByID] writes the name and role of the customer, and the name of the
    assigned cook, into the order it returns, each when the user is found;
    the memory [UserRepository.GetByID] returns a user exactly when it
    returns no error.  The [Foods] it also fills in are not among the
    fields of [Order] here. *)
Definition GetByID (id : Z) (s : Store) (h : heap)
  : (Store * heap) * (option loc * option error) :=
  match orders_lookup id (orders s) with
  | None => ((s, h), (None, Some (ErrorfInt "order not found" id)))
  | Some order =>
      let o := h !!! order in
      let o1 :=
        match (UserRepository.GetByID (OrderedBy o) s).2 with
        | (Some customer, None) =>
            set_CustomerRole (User_Role customer)
              (set_CustomerName (User_Name customer) o)
        | _ => o
        end in
      let o2 :=
        match AssignedCookUser o1 with
        | Some cookID =>
            match (UserRepository.GetByID cookID s).2 with
            | (Some cook, None) => set_CookName (User_Name cook) o1
            | _ => o1
            end
        | None => o1
        end in
      ((s, <[order := o2]> h), (Some order, None))
  end.

Definition GetByStatus (status : OrderStatus) (s : Store) (h : heap)
  : list loc * option error :=
  (filter (fun l => String.eqb (Status (h !!! l)) status
                    && negb (bool_decide (is_Some (DeletedAt (h !!! l)))) = true)
          (map snd (orders s)), None).

Definition GetPendingOrders (s : Store) (h : heap) : list loc * option error :=
  GetByStatus OrderStatusPending s h.

Definition GetByCustomerID (customerID : Z) (s : Store) (h : heap)
  : list loc * option error :=
  (filter (fun l => (OrderedBy (h !!! l) =? customerID)
                    && negb (bool_decide (is_Some (DeletedAt (h !!! l)))) = true)
          (map snd (orders s)), None).

(** The loop of [GetStats], an order at a time. *)
Definition count_order (h : heap) (acc : Z * Z) (l : loc) : Z * Z :=
  if bool_decide (is_Some (DeletedAt (h !!! l))) then acc
  else if String.eqb (Status (h !!! l)) OrderStatusComplete
       then (acc.1 + 1, acc.2)
       else (acc.1, acc.2 + 1).

Definition GetStats (s : Store) (h : heap) : Z * Z * option error :=
  (foldl (count_order h) (0, 0) (map snd (orders s)), None).

Definition Update (order : loc) (s : Store) (h : heap) : Store * option error :=
  match orders_lookup (ID (h !!! order)) (orders s) with
  | None => (s, Some (ErrorfInt "order not found" (ID (h !!! order))))
  | Some _ =>
      (mkStore (users s) (orders_insert (ID (h !!! order)) order (orders s)), None)
  end.

Definition GetByCookID (cookID : Z) (s : Store) (h : heap)
  : (Store * heap) * (list loc * option error) :=
  ((s, h), (filter (fun l => assigned_to h cookID l = true) (map snd (orders s)), None)).

Definition AssignCook (orderID cookID : Z) (s : Store) (h : heap)
  : (Store * heap) * option error :=
  match orders_lookup orderID (orders s) with
  | None => ((s, h), Some (ErrorfInt "order not found" orderID))
  | Some order => ((s, <[order := set_AssignedCookUser (Some cookID) (h !!! order)]> h), None)
  end.

Definition UnassignCook (orderID : Z) (s : Store) (h : heap)
  : (Store * heap) * option error :=
  match orders_lookup orderID (orders s) with
  | None => ((s, h), Some (ErrorfInt "order not found" orderID))
  | Some order => ((s, <[order := set_AssignedCookUser None (h !!! order)]> h), None)
  end.

Definition UpdateStatus (orderID : Z) (status : OrderStatus) (s : Store) (h : heap)
  : (Store * heap) * option error :=
  match orders_lookup orderID (orders s) with
  | None => ((s, h), Some (ErrorfInt "order not found" orderID))
  | Some order => ((s, <[order := set_Status status (h !!! order)]> h), None)
  end.

End OrderRepository.

#[global] Instance memory_UserRepository : UserRepository Store :=
  {| GetByID := UserRepository.GetByID; SoftDelete := UserRepository.SoftDelete |}.

#[global] Instance memory_OrderRepository : OrderRepository Store :=
  {| GetByCookID := OrderRepository.GetByCookID;
     AssignCook := OrderRepository.AssignCook;
     UnassignCook := OrderRepository.UnassignCook;
     UpdateStatus := OrderRepository.UpdateStatus |}.

Module FoodRepository.

Definition Create (food : Food) (r : Repositories)
  : Repositories * (option Food * option error) :=
  let food' := mkFood (food_nextID r) (Food_Name food) (Food_Type food)
                      (Food_DeletedAt food) in
  (mkRepos (store r) (user_nextID r) (order_nextID r) (orderFoods r)
           (<[food_nextID r := food']> (foods r)) (food_nextID r + 1),
   (Some food', None)).

Definition GetByID (id : Z) (r : Repositories)
  : Repositories * (option Food * option error) :=
  match foods r !! id with
  | None => (r, (None, Some (ErrorfInt "food not found" id)))
  | Some food => (r, (Some food, None))
  end.

End FoodRepository.

(** The repositories as the services see them in memory mode, over the full
    state. *)
#[global] Instance memory_full_UserRepository : UserRepository Repositories :=
  {| GetByID := fun id => on_store (UserRepository.GetByID id);
     SoftDelete := fun now id => on_store (UserRepository.SoftDelete now id) |}.

#[global] Instance memory_full_OrderRepository : OrderRepository Repositories :=
  {| GetByCookID := fun id => on_store_heap (OrderRepository.GetByCookID id);
     AssignCook := fun o c => on_store_heap (OrderRepository.AssignCook o c);
     UnassignCook := fun o => on_store_heap (OrderRepository.UnassignCook o);
     UpdateStatus := fun o st => on_store_heap (OrderRepository.UpdateStatus o st) |}.

#[global] Instance memory_UserRepositoryAdmin : UserRepositoryAdmin Repositories :=
  {| user_Create := UserRepository.Create;
     Reinstate := fun id => on_store (UserRepository.Reinstate id);
     GetAllCooks := fun d => on_store (UserRepository.GetAllCooks d) |}.

#[global] Instance memory_OrderRepositoryAdmin : OrderRepositoryAdmin Repositories :=
  {| order_Create := OrderRepository.Create;
     order_GetByID := fun id => on_store_heap (OrderRepository.GetByID id);
     order_GetStats := fun r h => (r, OrderRepository.GetStats (store r) h) |}.

#[global] Instance memory_FoodRepository : FoodRepository Repositories :=
  {| food_GetByID := FoodRepository.GetByID |}.

End memory.

(** ** Package postgres *)

Module postgres.

(** A row of table "order". *)
Record OrderRow : Type := mkRow {
  row_status : OrderStatus;
  row_assigned_cook_user : option Z;
  row_ordered_by : Z;
  row_deleted_at : option Z
}.

(** The database behind [*sql.DB]: tables "user" and "order" by primary
    key, and the connection.  The connection is outside the repository: the
    outcome of each statement sent over it (nil, or the driver's error, such
    as a cancelled context) is read from [driver], the outcomes to come;
    past its end every statement goes through.  Once a statement went
    through, reading its result ([RowsAffected], [Scan]) succeeds. *)
Record DB : Type := mkDB {
  user_table : gmap Z User;
  order_table : gmap Z OrderRow;
  driver : list (option error)
}.

(** One statement sent to the database. *)
Definition round_trip (db : DB) : DB * option error :=
  match driver db with
  | [] => (db, None)
  | r :: rest => (mkDB (user_table db) (order_table db) rest, r)
  end.

Module UserRepository.

Definition GetByID (id : Z) (db : DB) : DB * (option User * option error) :=
  let '(db1, r) := round_trip db in
  match r with
  | Some e => (db1, (None, Some (ErrorfWrap "failed to get user" e)))
  | None =>
      match user_table db1 !! id with
      | None => (db1, (None, Some (ErrorfInt "user not found" id)))
      | Some user => (db1, (Some user, None))
      end
  end.

Definition SoftDelete (now : Z) (id : Z) (db : DB) : DB * option error :=
  let '(db1, r) := round_trip db in
  match r with
  | Some e => (db1, Some (ErrorfWrap "failed to soft delete user" e))
  | None =>
      match user_table db1 !! id with
      | Some (mkUser uid name role None) =>
          (mkDB (<[id := mkUser uid name role (Some now)]> (user_table db1))
                (order_table db1) (driver db1), None)
      | _ => (db1, Some (ErrorfInt "user not found or already deleted" id))
      end
  end.

End UserRepository.

Module OrderRepository.

Definition AssignCook (orderID cookID : Z) (db : DB) (h : heap)
  : (DB * heap) * option error :=
  let '(db1, r) := round_trip db in
  match r with
  | Some e => ((db1, h), Some (ErrorfWrap "failed to assign cook" e))
  | None =>
      match order_table db1 !! orderID with
      | None => ((db1, h), Some (ErrorfInt "order not found" orderID))
      | Some row =>
          let row' := mkRow (row_status row) (Some cookID) (row_ordered_by row)
                            (row_deleted_at row) in
          ((mkDB (user_table db1) (<[orderID := row']> (order_table db1)) (driver db1), h),
           None)
      end
  end.

Definition UnassignCook (orderID : Z) (db : DB) (h : heap)
  : (DB * heap) * option error :=
  let '(db1, r) := round_trip db in
  match r with
  | Some e => ((db1, h), Some (ErrorfWrap "failed to unassign cook" e))
  | None =>
      match order_table db1 !! orderID with
      | None => ((db1, h), Some (ErrorfInt "order not found" orderID))
      | Some row =>
          let row' := mkRow (row_status row) None (row_ordered_by row)
                            (row_deleted_at row) in
          ((mkDB (user_table db1) (<[orderID := row']> (order_table db1)) (driver db1), h),
           None)
      end
  end.

Definition UpdateStatus (orderID : Z) (status : OrderStatus) (db : DB) (h : heap)
  : (DB * heap) * option error :=
  let '(db1, r) := round_trip db in
  match r with
  | Some e => ((db1, h), Some (ErrorfWrap "failed to update status" e))
  | None =>
      match order_table db1 !! orderID with
      | None => ((db1, h), Some (ErrorfInt "order not found" orderID))
      | Some row =>
          let row' := mkRow status (row_assigned_cook_user row) (row_ordered_by row)
                            (row_deleted_at row) in
          ((mkDB (user_table db1) (<[orderID := row']> (order_table db1)) (driver db1), h),
           None)
      end
  end.

(** [ORDER BY o.id] *)
Definition by_id (a b : Z * (OrderRow * User)) : Prop := a.1 <= b.1.

#[global] Instance by_id_dec : RelDecision by_id.
Proof. intros a b. unfold by_id. apply _. Defined.

(** The rows selected by [GetByCookID]: orders of the cook joined with
    their customer, by ascending order id. *)
Definition rows_of_cook (cookID : Z) (db : DB) : list (Z * (OrderRow * User)) :=
  merge_sort by_id
    (omap (fun '(id, row) =>
             if decide (row_assigned_cook_user row = Some cookID)
             then (fun u => (id, (row, u))) <$> user_table db !! row_ordered_by row
             else None)
          (map_to_list (order_table db))).

(** [scanOrders]: each row is read into a newly allocated order. *)
Fixpoint scanOrders (rows : list (Z * (OrderRow * User))) (h : heap) : heap * list loc :=
  match rows with
  | [] => (h, [])
  | (id, (row, u)) :: rest =>
      let order := fresh (dom h) in
      let h1 :=
        <[order := mkOrder id (row_status row) (row_assigned_cook_user row)
                     (row_ordered_by row) (row_deleted_at row)
                     (User_Name u) (User_Role u) ""]> h in
      let '(h2, os) := scanOrders rest h1 in
      (h2, order :: os)
  end.

Definition GetByCookID (cookID : Z) (db : DB) (h : heap)
  : (DB * heap) * (list loc * option error) :=
  let '(db1, r) := round_trip db in
  match r with
  | Some e => ((db1, h), ([], Some (ErrorfWrap "failed to get orders by cook" e)))
  | None =>
      let '(h1, os) := scanOrders (rows_of_cook cookID db1) h in
      ((db1, h1), (os, None))
  end.

End OrderRepository.

#[global] Instance postgres_UserRepository : UserRepository DB :=
  {| GetByID := UserRepository.GetByID; SoftDelete := UserRepository.SoftDelete |}.

#[global] Instance postgres_OrderRepository : OrderRepository DB :=
  {| GetByCookID := OrderRepository.GetByCookID;
     AssignCook := OrderRepository.AssignCook;
     UnassignCook := OrderRepository.UnassignCook;
     UpdateStatus := OrderRepository.UpdateStatus |}.

End postgres.

(** ** Package service: the cook service *)

Module service.

Record cookWorker : Type := mkWorker {
  cookID : Z;
  isRunning : bool
}.

(** The cook service with everything it reaches: the heap of orders, the
    state behind its repositories, its queue and its table of workers. *)
Record World (S : Type) : Type := mkWorld {
  w_heap : heap;
  w_store : S;
  orderQueue : PriorityQueue;
  workers : gmap Z cookWorker
}.
Arguments mkWorld {S} _ _ _ _.
Arguments w_heap {S} _.
Arguments w_store {S} _.
Arguments orderQueue {S} _.
Arguments workers {S} _.

Section cookService.
Context {S : Type} `{!UserRepository S} `{!OrderRepository S}.

(** [stopWorker]: closing the worker's stop channel is recorded by clearing
    [isRunning]. *)
Definition stopWorker (id : Z) (ws : gmap Z cookWorker) : gmap Z cookWorker :=
  match ws !! id with
  | Some worker =>
      if isRunning worker then <[id := mkWorker (cookID worker) false]> ws else ws
  | None => ws
  end.

Definition is_active_status (st : OrderStatus) : bool :=
  String.eqb st OrderStatusPending || String.eqb st OrderStatusServing.

(** The loop of [RemoveCook] over the orders of the cook.  A failing step
    is logged and the loop goes on with the next order. *)
Fixpoint requeue_orders (os : list loc) (s : S) (h : heap) (pq : PriorityQueue)
  : S * heap * PriorityQueue :=
  match os with
  | [] => (s, h, pq)
  | order :: rest =>
      if is_active_status (Status (h !!! order)) then
        let '((s1, h1), err) := UpdateStatus (ID (h !!! order)) OrderStatusPending s h in
        match err with
        | Some _ => requeue_orders rest s1 h1 pq
        | None =>
            let '((s2, h2), err) := UnassignCook (ID (h1 !!! order)) s1 h1 in
            match err with
            | Some _ => requeue_orders rest s2 h2 pq
            | None =>
                let '(pq', _) := EnqueueAtFront h2 (Some order) pq in
                requeue_orders rest s2 h2 pq'
            end
        end
      else requeue_orders rest s h pq
  end.

Definition RemoveCook (now : Z) (id : Z) (w : World S) : outcome (World S) (option error) :=
  let '(s1, (cook, err)) := GetByID id (w_store w) in
  match err with
  | Some e =>
      Returns (mkWorld (w_heap w) s1 (orderQueue w) (workers w))
              (Some (ErrorfWrap "cook not found" e))
  | None =>
      match cook with
      | None => Panics
      | Some cook =>
          if negb (IsCook cook) then
            Returns (mkWorld (w_heap w) s1 (orderQueue w) (workers w))
                    (Some (Errorf "user is not a cook"))
          else if IsDeleted cook then
            Returns (mkWorld (w_heap w) s1 (orderQueue w) (workers w))
                    (Some (Errorf "cook is already deleted"))
          else
            let ws := stopWorker id (workers w) in
            let '((s2, h2), (os, err)) := GetByCookID id s1 (w_heap w) in
            match err with
            | Some e =>
                Returns (mkWorld h2 s2 (orderQueue w) ws)
                        (Some (ErrorfWrap "failed to get orders" e))
            | None =>
                let '(s3, h3, pq3) := requeue_orders os s2 h2 (orderQueue w) in
                let '(s4, err) := SoftDelete now id s3 in
                match err with
                | Some e =>
                    Returns (mkWorld h3 s4 pq3 ws)
                            (Some (ErrorfWrap "failed to soft delete cook" e))
                | None => Returns (mkWorld h3 s4 pq3 ws) None
                end
            end
      end
  end.

(** [AcceptOrder] up to its return; the completion timer it starts
    ([go s.processOrder]) runs after the call and is not part of it. *)
Definition AcceptOrder (id : Z) (w : World S)
  : outcome (World S) (option loc * option error) :=
  let '(s1, (cook, err)) := GetByID id (w_store w) in
  match err with
  | Some e =>
      Returns (mkWorld (w_heap w) s1 (orderQueue w) (workers w))
              (None, Some (ErrorfWrap "cook not found" e))
  | None =>
      match cook with
      | None => Panics
      | Some cook =>
          if negb (IsCook cook) then
            Returns (mkWorld (w_heap w) s1 (orderQueue w) (workers w))
                    (None, Some (Errorf "user is not a cook"))
          else if IsDeleted cook then
            Returns (mkWorld (w_heap w) s1 (orderQueue w) (workers w))
                    (None, Some (Errorf "cook is deleted"))
          else
            let '(pq1, (order, err)) := Dequeue (orderQueue w) in
            match err with
            | Some ErrEmptyQueue =>
                Returns (mkWorld (w_heap w) s1 pq1 (workers w))
                        (None, Some (Errorf "no orders in queue"))
            | Some e =>
                Returns (mkWorld (w_heap w) s1 pq1 (workers w))
                        (None, Some (ErrorfWrap "failed to dequeue order" e))
            | None =>
                match order with
                | None => Panics
                | Some order =>
                    let '((s2, h2), err) :=
                      AssignCook (ID (w_heap w !!! order)) id s1 (w_heap w) in
                    match err with
                    | Some e =>
                        let '(pq2, _) := EnqueueAtFront h2 (Some order) pq1 in
                        Returns (mkWorld h2 s2 pq2 (workers w))
                                (None, Some (ErrorfWrap "failed to assign cook" e))
                    | None =>
                        let '((s3, h3), err) :=
                          UpdateStatus (ID (h2 !!! order)) OrderStatusServing s2 h2 in
                        match err with
                        | Some e =>
                            Returns (mkWorld h3 s3 pq1 (workers w))
                                    (None, Some (ErrorfWrap "failed to update order status" e))
                        | None => Returns (mkWorld h3 s3 pq1 (workers w)) (Some order, None)
                        end
                    end
                end
            end
      end
  end.

(** The cook is found and active, and the queue hands out the order at
    [l]. *)
Definition accepts (w : World S) (id : Z) (s1 : S) (pq1 : PriorityQueue) (l : loc) : Prop :=
  exists cook,
    GetByID id (w_store w) = (s1, (Some cook, None))
    /\ IsCook cook = true /\ IsDeleted cook = false
    /\ Dequeue (orderQueue w) = (pq1, served l).

End cookService.

(** *** The cook service, continued *)

Section cookService_lifecycle.
Context {S : Type} `{!UserRepository S} `{!OrderRepository S} `{!UserRepositoryAdmin S}.

Definition CreateCook (name : string) (w : World S)
  : outcome (World S) (option User * option error) :=
  let cook := mkUser 0 name RoleCook None in
  let '(s1, (createdCook, err)) := user_Create cook (w_store w) in
  match err with
  | Some e =>
      Returns (mkWorld (w_heap w) s1 (orderQueue w) (workers w))
              (None, Some (ErrorfWrap "failed to create cook" e))
  | None =>
      match createdCook with
      | None => Panics
      | Some createdCook =>
          Returns (mkWorld (w_heap w) s1 (orderQueue w) (workers w))
                  (Some createdCook, None)
      end
  end.

Definition ReinstateCook (id : Z) (w : World S) : outcome (World S) (option error) :=
  let '(s1, (cook, err)) := GetByID id (w_store w) in
  match err with
  | Some e =>
      Returns (mkWorld (w_heap w) s1 (orderQueue w) (workers w))
              (Some (ErrorfWrap "cook not found" e))
  | None =>
      match cook with
      | None => Panics
      | Some cook =>
          if negb (IsCook cook) then
            Returns (mkWorld (w_heap w) s1 (orderQueue w) (workers w))
                    (Some (Errorf "user is not a cook"))
          else if negb (IsDeleted cook) then
            Returns (mkWorld (w_heap w) s1 (orderQueue w) (workers w))
                    (Some (Errorf "cook is not deleted"))
          else
            let '(s2, err) := Reinstate id s1 in
            match err with
            | Some e =>
                Returns (mkWorld (w_heap w) s2 (orderQueue w) (workers w))
                        (Some (ErrorfWrap "failed to reinstate cook" e))
            | None => Returns (mkWorld (w_heap w) s2 (orderQueue w) (workers w)) None
            end
      end
  end.

Definition GetCook (id : Z) (w : World S)
  : outcome (World S) (option User * option error) :=
  let '(s1, (cook, err)) := GetByID id (w_store w) in
  match err with
  | Some e => Returns (mkWorld (w_heap w) s1 (orderQueue w) (workers w)) (None, Some e)
  | None =>
      match cook with
      | None => Panics
      | Some cook =>
          if negb (IsCook cook) then
            Returns (mkWorld (w_heap w) s1 (orderQueue w) (workers w))
                    (None, Some (Errorf "user is not a cook"))
          else
            Returns (mkWorld (w_heap w) s1 (orderQueue w) (workers w)) (Some cook, None)
      end
  end.

(** [processOrder]: [elapsed] tells which case of the [select] is taken,
    the timer ([true]) or the cancelled context ([false]).  A failing update
    is logged. *)
Definition processOrder (elapsed : bool) (orderID cookID : Z) (w : World S) : World S :=
  if elapsed then
    let '((s1, h1), _) :=
      UpdateStatus orderID OrderStatusComplete (w_store w) (w_heap w) in
    mkWorld h1 s1 (orderQueue w) (workers w)
  else w.

(** [startWorker] up to its return: the entry it makes in the table of
    workers.  The goroutine it starts calls [AcceptOrder] at every tick
    until it is told to stop. *)
Definition startWorker (id : Z) (ws : gmap Z cookWorker)
  : gmap Z cookWorker * option error :=
  let running :=
    match ws !! id with
    | Some worker => isRunning worker
    | None => false
    end in
  if running then
    (ws, Some (Errorf ("worker already running for cook " +:+ pretty id)))
  else (<[id := mkWorker id true]> ws, None).

(** [StartWorkerPool]: a worker for each cook that [GetAllCooks] returns; a
    worker that cannot be started is logged.  [numCooks] is only logged. *)
Definition StartWorkerPool (numCooks : Z) (w : World S) : World S * option error :=
  let '(s1, (cooks, err)) := GetAllCooks false (w_store w) in
  match err with
  | Some e =>
      (mkWorld (w_heap w) s1 (orderQueue w) (workers w),
       Some (ErrorfWrap "failed to get cooks" e))
  | None =>
      (mkWorld (w_heap w) s1 (orderQueue w)
         (foldl (fun ws cook => (startWorker (User_ID cook) ws).1) (workers w) cooks),
       None)
  end.

End cookService_lifecycle.

(** *** The order service *)

Section orderService.
Context {S : Type} `{!UserRepository S} `{!OrderRepositoryAdmin S} `{!FoodRepository S}.

(** The first loop of [validateFoodIDs]: the first ID met a second time. *)
Fixpoint find_duplicate (seen : gset Z) (ids : list Z) : option Z :=
  match ids with
  | [] => None
  | id :: rest =>
      if bool_decide (id ∈ seen) then Some id
      else find_duplicate ({[id]} ∪ seen) rest
  end.

(** The second loop of [validateFoodIDs]. *)
Fixpoint check_foods (ids : list Z) (s : S) : outcome S (option error) :=
  match ids with
  | [] => Returns s None
  | foodID :: rest =>
      let '(s1, (food, err)) := food_GetByID foodID s in
      match err with
      | Some _ => Returns s1 (Some (ErrorfInt "food item not found" foodID))
      | None =>
          match food with
          | None => Panics
          | Some food =>
              if Food_IsDeleted food then
                Returns s1 (Some (Errorf ("food item is no longer available: "
                                          +:+ Food_Name food)))
              else check_foods rest s1
          end
      end
  end.

Definition validateFoodIDs (foodIDs : list Z) (s : S) : outcome S (option error) :=
  if Z.of_nat (length foodIDs) =? 0 then
    Returns s (Some (Errorf "order must contain at least one food item"))
  else
    match find_duplicate ∅ foodIDs with
    | Some id => Returns s (Some (ErrorfInt "duplicate food ID in order" id))
    | None => check_foods foodIDs s
    end.

Definition CreateOrder (customerID : Z) (foodIDs : list Z) (w : World S)
  : outcome (World S) (option loc * option error) :=
  let '(s1, (customer, err)) := GetByID customerID (w_store w) in
  match err with
  | Some e =>
      Returns (mkWorld (w_heap w) s1 (orderQueue w) (workers w))
              (None, Some (ErrorfWrap "customer not found" e))
  | None =>
      match customer with
      | None => Panics
      | Some customer =>
          if IsDeleted customer then
            Returns (mkWorld (w_heap w) s1 (orderQueue w) (workers w))
                    (None, Some (Errorf "customer is deleted"))
          else if negb (IsCustomer customer) then
            Returns (mkWorld (w_heap w) s1 (orderQueue w) (workers w))
                    (None, Some (Errorf "user is not a customer"))
          else
            match validateFoodIDs foodIDs s1 with
            | Panics => Panics
            | Returns s2 (Some e) =>
                Returns (mkWorld (w_heap w) s2 (orderQueue w) (workers w)) (None, Some e)
            | Returns s2 None =>
                let order := fresh (dom (w_heap w)) in
                let h1 :=
                  <[order := mkOrder 0 OrderStatusPending None customerID None "" "" ""]>
                    (w_heap w) in
                let '((s3, h3), (createdOrder, err)) :=
                  order_Create order foodIDs s2 h1 in
                match err with
                | Some e =>
                    Returns (mkWorld h3 s3 (orderQueue w) (workers w))
                            (None, Some (ErrorfWrap "failed to create order" e))
                | None =>
                    match createdOrder with
                    | None => Panics
                    | Some createdOrder =>
                        let h4 :=
                          <[createdOrder :=
                              set_CustomerRole (User_Role customer)
                                (set_CustomerName (User_Name customer)
                                   (h3 !!! createdOrder))]> h3 in
                        let '(pq, err) :=
                          Enqueue h4 (Some createdOrder) (orderQueue w) in
                        match err with
                        | Some e =>
                            Returns (mkWorld h4 s3 pq (workers w))
                                    (None, Some (ErrorfWrap "failed to enqueue order" e))
                        | None =>
                            Returns (mkWorld h4 s3 pq (workers w))
                                    (Some createdOrder, None)
                        end
                    end
                end
            end
      end
  end.

Definition GetOrder (orderID : Z) (w : World S) : World S * (option loc * option error) :=
  let '((s1, h1), (order, err)) := order_GetByID orderID (w_store w) (w_heap w) in
  match err with
  | Some e => (mkWorld h1 s1 (orderQueue w) (workers w), (None, Some e))
  | None => (mkWorld h1 s1 (orderQueue w) (workers w), (order, None))
  end.

Definition GetOrderStats (w : World S) : World S * (Z * Z * option error) :=
  let '(s1, (completed, incomplete, err)) := order_GetStats (w_store w) (w_heap w) in
  match err with
  | Some e => (mkWorld (w_heap w) s1 (orderQueue w) (workers w), (0, 0, Some e))
  | None =>
      (mkWorld (w_heap w) s1 (orderQueue w) (workers w), (completed, incomplete, None))
  end.

Definition GetQueueSize (w : World S) : Z := Size (orderQueue w).

End orderService.

End service.

Import service.

(** ** Well-formed worlds over the in-memory repositories *)

Section memory_worlds.
Import memory.

(** The bindings of the order map have distinct keys, and each order is
    stored under its own ID, as [Create] leaves them. *)
Definition store_indexed (w : World Store) : Prop :=
  NoDup (map fst (orders (w_store w)))
  /\ Forall (fun kl => ID (w_heap w !!! kl.2) = kl.1) (orders (w_store w)).

(** Every queued pointer is the repository's record of its order: what
    [CreateOrder] enqueues is the pointer [Create] stored. *)
Definition queue_backed (w : World Store) : Prop :=
  Forall (fun l => orders_lookup (ID (w_heap w !!! l)) (orders (w_store w)) = Some l)
         (vipOrders (orderQueue w) ++ regularOrders (orderQueue w)).

(** The user [id] is a cook that has not been removed. *)
Definition active_cook (w : World Store) (id : Z) : Prop :=
  exists u, users (w_store w) !! id = Some u
            /\ IsCook u = true /\ IsDeleted u = false.

(** The order at [l] is held by cook [id]: it is one of the repository's
    orders, assigned to [id], and being served. *)
Definition holds (w : World Store) (id : Z) (l : loc) : Prop :=
  l ∈ map snd (orders (w_store w))
  /\ AssignedCookUser (w_heap w !!! l) = Some id
  /\ Status (w_heap w !!! l) = OrderStatusServing.

(** The heap after the order at [l] went back to pending, unassigned. *)
Definition requeued (l : loc) (h : heap) : heap :=
  <[l := set_AssignedCookUser None (set_Status OrderStatusPending (h !!! l))]> h.

(** The heap after the order at [l] was bound to cook [id]. *)
Definition bound (id : Z) (l : loc) (h : heap) : heap :=
  <[l := set_Status OrderStatusServing (set_AssignedCookUser (Some id) (h !!! l))]> h.

(** The invariant of the service: the order map is well indexed, and the
    queue is consistent, sorted by tier and backed by the repository. *)
Definition world_ok (w : World Store) : Prop :=
  store_indexed w
  /\ size_consistent (orderQueue w)
  /\ tiers_sorted (w_heap w) (orderQueue w)
  /\ queue_backed w.

(** The status test of the loop of [RemoveCook], and the orders among [os]
    that pass it and belong to the given tier. *)
Definition is_active (h : heap) (l : loc) : bool :=
  is_active_status (Status (h !!! l)).

Definition to_requeue (h : heap) (vip : bool) (os : list loc) : list loc :=
  filter (fun l => is_active h l && Bool.eqb (isVIPOrder h l) vip = true) os.

Definition requeue_heap (os : list loc) (h : heap) : heap :=
  foldl (fun h l => if is_active h l then requeued l h else h) h os.

End memory_worlds.

(** ** The kiosk: both services over the in-memory repositories *)

Section memory_kiosk.
Import memory.

(** The part of the kiosk that the cook service reaches, and the kiosk
    with that part replaced. *)
Definition view (w : World Repositories) : World Store :=
  mkWorld (w_heap w) (store (w_store w)) (orderQueue w) (workers w).

Definition review (r : Repositories) (w : World Store) : World Repositories :=
  mkWorld (w_heap w) (with_store (w_store w) r) (orderQueue w) (workers w).

Definition review_outcome {A : Type} (r : Repositories) (o : outcome (World Store) A)
  : outcome (World Repositories) A :=
  match o with
  | Returns w a => Returns (review r w) a
  | Panics => Panics
  end.

(** [buildApplication] in memory mode: new repositories, a new queue and
    no worker. *)
Definition NewKiosk : World Repositories :=
  mkWorld ∅ NewRepositories NewPriorityQueue ∅.

(** The calls that change the kiosk: the methods of the two services, the
    repository calls by which customers and foods are entered, and the
    timer of an accepted order.  The timer is let to fire for any order at
    any moment, which covers every moment at which it fires. *)
Inductive call : Type :=
| CallCreateUser (user : User)
| CallCreateFood (food : Food)
| CallCreateCook (name : string)
| CallRemoveCook (now id : Z)
| CallReinstateCook (id : Z)
| CallAcceptOrder (id : Z)
| CallProcessOrder (elapsed : bool) (orderID cookID : Z)
| CallStartWorkerPool (numCooks : Z)
| CallCreateOrder (customerID : Z) (foodIDs : list Z)
| CallGetOrder (orderID : Z).

Definition state_of {W A : Type} (o : outcome W A) : option W :=
  match o with
  | Returns w _ => Some w
  | Panics => None
  end.

(** The kiosk after a call, when the call does not panic. *)
Definition run_call (c : call) (w : World Repositories) : option (World Repositories) :=
  match c with
  | CallCreateUser user =>
      Some (mkWorld (w_heap w) (UserRepository.Create user (w_store w)).1
                    (orderQueue w) (workers w))
  | CallCreateFood food =>
      Some (mkWorld (w_heap w) (FoodRepository.Create food (w_store w)).1
                    (orderQueue w) (workers w))
  | CallCreateCook name => state_of (CreateCook name w)
  | CallRemoveCook now id => state_of (RemoveCook now id w)
  | CallReinstateCook id => state_of (ReinstateCook id w)
  | CallAcceptOrder id => state_of (AcceptOrder id w)
  | CallProcessOrder elapsed orderID cookID => Some (processOrder elapsed orderID cookID w)
  | CallStartWorkerPool numCooks => Some (StartWorkerPool numCooks w).1
  | CallCreateOrder customerID foodIDs => state_of (CreateOrder customerID foodIDs w)
  | CallGetOrder orderID => Some (GetOrder orderID w).1
  end.

Fixpoint run_calls (cs : list call) (w : World Repositories)
  : option (World Repositories) :=
  match cs with
  | [] => Some w
  | c :: cs' =>
      match run_call c w with
      | Some w' => run_calls cs' w'
      | None => None
      end
  end.

(** Order IDs are below the counter of the order repository, and every
    stored pointer is allocated. *)
Definition orders_allocated (w : World Repositories) : Prop :=
  Forall (fun kl : Z * loc =>
            kl.1 < order_nextID (w_store w) /\ is_Some (w_heap w !! kl.2))
         (orders (store (w_store w))).

(** Every user is stored under its own ID, below the counter of the user
    repository. *)
Definition users_indexed (w : World Repositories) : Prop :=
  forall id u, users (store (w_store w)) !! id = Some u ->
               User_ID u = id /\ id < user_nextID (w_store w).

(** No order is queued twice, and no queued order is assigned to a cook. *)
Definition queue_free (w : World Repositories) : Prop :=
  NoDup (queued (orderQueue w))
  /\ Forall (fun l => AssignedCookUser (w_heap w !!! l) = None) (queued (orderQueue w)).

(** Every order carries the name and role of the user who placed it. *)
Definition customers_synced (w : World Repositories) : Prop :=
  Forall (fun kl : Z * loc =>
            exists u, users (store (w_store w)) !! OrderedBy (w_heap w !!! kl.2) = Some u
                      /\ CustomerName (w_heap w !!! kl.2) = User_Name u
                      /\ CustomerRole (w_heap w !!! kl.2) = User_Role u)
         (orders (store (w_store w))).

(** Every order is pending, being served or complete, and not deleted. *)
Definition statuses_known (w : World Repositories) : Prop :=
  Forall (fun kl : Z * loc =>
            Status (w_heap w !!! kl.2)
              ∈ [OrderStatusPending; OrderStatusServing; OrderStatusComplete]
            /\ DeletedAt (w_heap w !!! kl.2) = None)
         (orders (store (w_store w))).

(** The invariant of the kiosk. *)
Definition kiosk_ok (w : World Repositories) : Prop :=
  world_ok (view w)
  /\ orders_allocated w
  /\ users_indexed w
  /\ queue_free w
  /\ customers_synced w
  /\ statuses_known w.

(** The user [id] is a customer who may order. *)
Definition active_customer (w : World Repositories) (id : Z) (u : User) : Prop :=
  users (store (w_store w)) !! id = Some u
  /\ IsDeleted u = false /\ IsCustomer u = true.

(** The food IDs that [validateFoodIDs] lets through. *)
Definition valid_foods (r : Repositories) (foodIDs : list Z) : Prop :=
  foodIDs <> [] /\ NoDup foodIDs
  /\ Forall (fun id => exists f, foods r !! id = Some f /\ Food_IsDeleted f = false)
            foodIDs.

(** The worker of cook [id] is running. *)
Definition running (ws : gmap Z cookWorker) (id : Z) : Prop :=
  exists worker, ws !! id = Some worker /\ isRunning worker = true.

(** The order that [CreateOrder] has allocated for the customer [u] when it
    returns: numbered by the repository, pending, with the name and role of
    the customer. *)
Definition new_order (r : Repositories) (customerID : Z) (u : User) : Order :=
  mkOrder (order_nextID r) OrderStatusPending None customerID None
          (User_Name u) (User_Role u) "".

(** The kiosk after [CreateOrder] has placed an order of [u]. *)
Definition placed (w : World Repositories) (customerID : Z) (u : User)
    (foodIDs : list Z) : World Repositories :=
  let r := w_store w in
  let l := fresh (dom (w_heap w)) in
  let h' := <[l := new_order r customerID u]> (w_heap w) in
  mkWorld h'
    (mkRepos (mkStore (users (store r)) (orders (store r) ++ [(order_nextID r, l)]))
             (user_nextID r) (order_nextID r + 1)
             (<[order_nextID r := foodIDs]> (orderFoods r)) (foods r) (food_nextID r))
    (Enqueue h' (Some l) (orderQueue w)).1
    (workers w).

End memory_kiosk.

(** ** Sample orders and states *)

Module sample.

Definition regular_order (id : Z) : Order :=
  mkOrder id OrderStatusPending None 100 None "Ann" RoleRegularCustomer "".

Definition vip_order (id : Z) : Order :=
  mkOrder id OrderStatusPending None 200 None "Vic" RoleVIPCustomer "".

(** Orders 1, 3 and 4 of a regular customer, orders 2 and 5 of a VIP
    customer, each stored at the address of its number. *)
Definition orders_heap : heap :=
  {[ 1%positive := regular_order 1; 2%positive := vip_order 2;
     3%positive := regular_order 3; 4%positive := regular_order 4;
     5%positive := vip_order 5 ]}.

(** Regular order 1, VIP order 2 and regular order 3, enqueued in that
    order on a new queue. *)
Definition mixed_queue : PriorityQueue :=
  (Enqueue orders_heap (Some 3%positive)
     (Enqueue orders_heap (Some 2%positive)
        (Enqueue orders_heap (Some 1%positive) NewPriorityQueue).1).1).1.

Definition cook (id : Z) (deleted : option Z) : User := mkUser id "Bot" RoleCook deleted.

(** Cook 7 is active, cook 8 was removed; 100 and 200 are the customers. *)
Definition user_map : gmap Z User :=
  {[ 7 := cook 7 None; 8 := cook 8 (Some 1700000000);
     100 := mkUser 100 "Ann" RoleRegularCustomer None;
     200 := mkUser 200 "Vic" RoleVIPCustomer None ]}.

Definition memory_store : memory.Store :=
  memory.mkStore user_map
    [(1, 1%positive); (2, 2%positive); (3, 3%positive); (4, 4%positive); (5, 5%positive)].

(** The in-memory service with orders 1, 2 and 3 queued. *)
Definition memory_world : World memory.Store :=
  mkWorld orders_heap memory_store mixed_queue {[ 7 := mkWorker 7 true ]}.

(** The in-memory service with the VIP orders 2 and 5 queued. *)
Definition vip_world : World memory.Store :=
  mkWorld orders_heap memory_store
    (EnqueueAll orders_heap [2%positive; 5%positive] NewPriorityQueue)
    {[ 7 := mkWorker 7 true ]}.

(** Cook 7 serving the VIP orders 2 and 5 at once, the queue drained. *)
Definition serving_order (id cook : Z) : Order :=
  mkOrder id OrderStatusServing (Some cook) 200 None "Vic" RoleVIPCustomer "".

Definition busy_world : World memory.Store :=
  mkWorld (<[5%positive := serving_order 5 7]>
             (<[2%positive := serving_order 2 7]> orders_heap))
          memory_store NewPriorityQueue {[ 7 := mkWorker 7 true ]}.

(** Cook 7 serving the VIP order 2, the regular orders 1 and 3 queued:
    [memory_world] after one [AcceptOrder]. *)
Definition serving_world : World memory.Store :=
  mkWorld (<[2%positive := serving_order 2 7]> orders_heap)
          memory_store (mkPQ [] [1%positive; 3%positive] 2) {[ 7 := mkWorker 7 true ]}.

Definition pending_row (customer : Z) : postgres.OrderRow :=
  postgres.mkRow OrderStatusPending None customer None.

(** The same orders in a database whose connection carries two more
    statements and then reports a cancelled context. *)
Definition database : postgres.DB :=
  postgres.mkDB user_map
    {[ 1 := pending_row 100; 2 := pending_row 200; 3 := pending_row 100;
       4 := pending_row 100; 5 := pending_row 200 ]}
    [None; None; Some (Errorf "context canceled")].

(** The same database with a sound connection. *)
Definition sound_database : postgres.DB :=
  postgres.mkDB (postgres.user_table database) (postgres.order_table database) [].

Definition sound_postgres_world : World postgres.DB :=
  mkWorld orders_heap sound_database mixed_queue {[ 7 := mkWorker 7 true ]}.

Definition postgres_world : World postgres.DB :=
  mkWorld orders_heap database mixed_queue {[ 7 := mkWorker 7 true ]}.

(** Cook 7 active and the queue holding an order, at address 6, that the
    repository does not know. *)
Definition stray_world : World memory.Store :=
  mkWorld (<[6%positive := regular_order 6]> orders_heap) memory_store
          (mkPQ [] [6%positive] 1) {[ 7 := mkWorker 7 true ]}.

(** The calls by which a kiosk opens: three foods, the pie withdrawn; the
    customers Ann (user 1) and Vic (user 2, VIP); the cooks Bot (user 3) and
    Old (user 4), Old removed again; the worker pool; then an order of Ann,
    one of Vic and another of Ann. *)
Definition opening : list call :=
  [ CallCreateFood (mkFood 0 "Burger" FoodTypeFood None);
    CallCreateFood (mkFood 0 "Cola" FoodTypeDrink None);
    CallCreateFood (mkFood 0 "Pie" FoodTypeDessert (Some 1700000000));
    CallCreateUser (mkUser 0 "Ann" RoleRegularCustomer None);
    CallCreateUser (mkUser 0 "Vic" RoleVIPCustomer None);
    CallCreateCook "Bot";
    CallCreateCook "Old";
    CallRemoveCook 1700000000 4;
    CallStartWorkerPool 5;
    CallCreateOrder 1 [1; 2];
    CallCreateOrder 2 [1];
    CallCreateOrder 1 [2] ].

(** The kiosk after these calls: orders 1, 2 and 3 queued, stored at the
    addresses 1, 2 and 3. *)
Definition kiosk : World memory.Repositories :=
  default NewKiosk (run_calls opening NewKiosk).

(** The same kiosk once Bot has accepted an order. *)
Definition serving_kiosk : World memory.Repositories :=
  default kiosk (state_of (AcceptOrder 3 kiosk)).

End sample.

(** * Properties of the dispatch queue *)

Section queue_facts.
Implicit Types (h : heap) (pq : PriorityQueue) (l : loc) (ls : list loc).

(** ** What [Dequeue] and [Peek] return on a consistent queue *)

Lemma Dequeue_vip pq l rest :
  size_consistent pq -> vipOrders pq = l :: rest ->
  Dequeue pq = (mkPQ rest (regularOrders pq) (size pq - 1), served l).
Proof.
  unfold size_consistent, Dequeue. intros Hsz Hv. rewrite Hv in *. simpl in Hsz.
  destruct (Z.eqb_spec (size pq) 0); [lia | reflexivity].
Qed.

Lemma Dequeue_regular pq l rest :
  size_consistent pq -> vipOrders pq = [] -> regularOrders pq = l :: rest ->
  Dequeue pq = (mkPQ [] rest (size pq - 1), served l).
Proof.
  unfold size_consistent, Dequeue. intros Hsz Hv Hr. rewrite Hv, Hr in *. simpl in Hsz.
  destruct (Z.eqb_spec (size pq) 0); [lia | reflexivity].
Qed.

Lemma Dequeue_empty pq :
  size_consistent pq -> vipOrders pq = [] -> regularOrders pq = [] ->
  Dequeue pq = (pq, (None, Some ErrEmptyQueue)).
Proof.
  unfold size_consistent, Dequeue. intros Hsz Hv Hr. rewrite Hv, Hr in *. simpl in Hsz.
  destruct (Z.eqb_spec (size pq) 0); [reflexivity | lia].
Qed.

Lemma Peek_vip pq l rest :
  size_consistent pq -> vipOrders pq = l :: rest -> Peek pq = served l.
Proof.
  unfold size_consistent, Peek. intros Hsz Hv. rewrite Hv in *. simpl in Hsz.
  destruct (Z.eqb_spec (size pq) 0); [lia | reflexivity].
Qed.

Lemma Peek_regular pq l rest :
  size_consistent pq -> vipOrders pq = [] -> regularOrders pq = l :: rest ->
  Peek pq = served l.
Proof.
  unfold size_consistent, Peek. intros Hsz Hv Hr. rewrite Hv, Hr in *. simpl in Hsz.
  destruct (Z.eqb_spec (size pq) 0); [lia | reflexivity].
Qed.

Lemma Peek_empty pq :
  vipOrders pq = [] -> regularOrders pq = [] -> Peek pq = (None, Some ErrEmptyQueue).
Proof.
  unfold Peek. intros Hv Hr. rewrite Hv, Hr. by destruct (size pq =? 0).
Qed.

(** ** Preservation of the invariants *)

Lemma Enqueue_size_consistent h order pq :
  size_consistent pq -> size_consistent (Enqueue h order pq).1.
Proof.
  unfold size_consistent, Enqueue. intros Hsz.
  destruct order as [l|]; [|exact Hsz].
  destruct (isVIPOrder h l); simpl; rewrite length_app; simpl; lia.
Qed.

Lemma EnqueueAtFront_size_consistent h order pq :
  size_consistent pq -> size_consistent (EnqueueAtFront h order pq).1.
Proof.
  unfold size_consistent, EnqueueAtFront. intros Hsz.
  destruct order as [l|]; [|exact Hsz].
  destruct (isVIPOrder h l); simpl; lia.
Qed.

Lemma Dequeue_size_consistent pq :
  size_consistent pq -> size_consistent (Dequeue pq).1.
Proof.
  intros Hsz. destruct (vipOrders pq) as [|l rest] eqn:Hv.
  - destruct (regularOrders pq) as [|l rest] eqn:Hr.
    + by rewrite Dequeue_empty.
    + rewrite (Dequeue_regular pq l rest) by done.
      unfold size_consistent in *. rewrite Hv, Hr in Hsz. simpl in *. lia.
  - rewrite (Dequeue_vip pq l rest) by done.
    unfold size_consistent in *. rewrite Hv in Hsz. simpl in *. lia.
Qed.

Lemma run_op_size_consistent h o pq :
  size_consistent pq -> size_consistent (run_op h o pq).1.
Proof.
  intros Hsz. destruct o; simpl; try done.
  - by apply Enqueue_size_consistent.
  - by apply EnqueueAtFront_size_consistent.
  - pose proof (Dequeue_size_consistent pq Hsz) as H.
    by destruct (Dequeue pq) as [pq' [o e]].
Qed.

Lemma Enqueue_tiers_sorted h order pq :
  tiers_sorted h pq -> tiers_sorted h (Enqueue h order pq).1.
Proof.
  unfold tiers_sorted, Enqueue. intros [Hv Hr].
  destruct order as [l|]; [|done].
  destruct (isVIPOrder h l) eqn:E; simpl; split; try done;
    apply Forall_app; split; try done; by constructor.
Qed.

Lemma EnqueueAtFront_tiers_sorted h order pq :
  tiers_sorted h pq -> tiers_sorted h (EnqueueAtFront h order pq).1.
Proof.
  unfold tiers_sorted, EnqueueAtFront. intros [Hv Hr].
  destruct order as [l|]; [|done].
  destruct (isVIPOrder h l) eqn:E; simpl; split; try done; by constructor.
Qed.

Lemma Dequeue_tiers_sorted h pq :
  tiers_sorted h pq -> tiers_sorted h (Dequeue pq).1.
Proof.
  unfold tiers_sorted, Dequeue. intros [Hv Hr].
  destruct (size pq =? 0); [done|].
  destruct (vipOrders pq) as [|l rest] eqn:Ev.
  - destruct (regularOrders pq) as [|l rest] eqn:Er; simpl; rewrite ?Ev, ?Er; split; try done.
    by inversion Hr.
  - simpl; split; [by inversion Hv | done].
Qed.

Lemma Reachable_invariants h pq :
  Reachable h pq -> size_consistent pq /\ tiers_sorted h pq.
Proof.
  induction 1 as [h|h pq order _ [IH1 IH2]|h pq order _ [IH1 IH2]|h pq _ [IH1 IH2]
                  |h h' pq _ [IH1 [IHv IHr]] Hrole].
  - split; [reflexivity | split; constructor].
  - split; [by apply Enqueue_size_consistent | by apply Enqueue_tiers_sorted].
  - split; [by apply EnqueueAtFront_size_consistent | by apply EnqueueAtFront_tiers_sorted].
  - split; [by apply Dequeue_size_consistent | by apply Dequeue_tiers_sorted].
  - split; [done|].
    split; (eapply Forall_impl; [eassumption|]); intros l; unfold isVIPOrder;
      by rewrite Hrole.
Qed.

(** ** Enqueuing a batch, draining a queue *)

Lemma EnqueueAll_spec h ls pq :
  EnqueueAll h ls pq =
  mkPQ (vipOrders pq ++ filter (fun l => isVIPOrder h l = true) ls)
       (regularOrders pq ++ filter (fun l => isVIPOrder h l = false) ls)
       (size pq + Z.of_nat (length ls)).
Proof.
  revert pq. induction ls as [|l ls IH]; intros [v r n]; simpl.
  - rewrite !app_nil_r. f_equal. lia.
  - rewrite IH. unfold Enqueue. rewrite !filter_cons.
    destruct (isVIPOrder h l) eqn:E; simpl.
    + rewrite <- app_assoc. simpl. f_equal. lia.
    + rewrite <- app_assoc. simpl. f_equal. lia.
Qed.

Lemma filter_all ls (P : loc -> Prop) `{!forall l, Decision (P l)} :
  Forall P ls -> filter P ls = ls.
Proof.
  induction 1 as [|l ls Hl _ IH]; [done|].
  rewrite filter_cons, decide_True by done. by rewrite IH.
Qed.

Lemma filter_none ls (P : loc -> Prop) `{!forall l, Decision (P l)} :
  Forall (fun l => ~ P l) ls -> filter P ls = [].
Proof.
  induction 1 as [|l ls Hl _ IH]; [done|].
  by rewrite filter_cons, decide_False.
Qed.

Lemma DequeueN_drain vip reg n :
  n = Z.of_nat (length vip + length reg) ->
  DequeueN (length vip + length reg) (mkPQ vip reg n)
  = (map served (vip ++ reg), mkPQ [] [] 0).
Proof.
  revert n. induction vip as [|l vip IH]; intros n Hn.
  - revert n Hn. induction reg as [|l reg IHr]; intros n Hn; simpl in *.
    + by subst.
    + rewrite (Dequeue_regular _ l reg); try done. simpl.
      rewrite (IHr (n - 1)) by lia. done.
  - simpl in *. rewrite (Dequeue_vip _ l vip); try done. simpl.
    rewrite (IH (n - 1)) by lia. done.
Qed.

End queue_facts.

(** ** Tier priority *)

(** Scenario 1 of the specification: regular A, VIP B, regular C come out as
    B, A, C. *)
Example dequeue_order_mixed :
  (DequeueN 4 sample.mixed_queue).1
  = [served 2%positive; served 1%positive; served 3%positive; (None, Some ErrEmptyQueue)].
Proof. vm_compute. reflexivity. Qed.

(** C1. In every reachable state: when the VIP tier is non-empty, [Dequeue]
    removes and returns its head and [Peek] returns it, and that order is a
    VIP order, not a standard one; when the VIP tier is empty and the
    regular tier is not, both return the regular head; when both are empty,
    both report [ErrEmptyQueue]. *)
Theorem tier_priority (h : heap) (pq : PriorityQueue) :
  Reachable h pq ->
  (forall l rest, vipOrders pq = l :: rest ->
     Dequeue pq = (mkPQ rest (regularOrders pq) (size pq - 1), served l)
     /\ Peek pq = served l
     /\ isVIPOrder h l = true
     /\ l ∉ regularOrders pq)
  /\ (forall l rest, vipOrders pq = [] -> regularOrders pq = l :: rest ->
     Dequeue pq = (mkPQ [] rest (size pq - 1), served l)
     /\ Peek pq = served l)
  /\ (vipOrders pq = [] -> regularOrders pq = [] ->
     Dequeue pq = (pq, (None, Some ErrEmptyQueue))
     /\ Peek pq = (None, Some ErrEmptyQueue)).
Proof.
  intros Hreach. destruct (Reachable_invariants h pq Hreach) as [Hsz [Hv Hr]].
  split; [|split].
  - intros l rest E.
    assert (isVIPOrder h l = true) as Hl.
    { rewrite E in Hv. by inversion Hv. }
    repeat split.
    + by apply Dequeue_vip.
    + by apply (Peek_vip pq l rest).
    + done.
    + intros Hin. rewrite Forall_forall in Hr. specialize (Hr l Hin). congruence.
  - intros l rest Ev Er. split.
    + by apply Dequeue_regular.
    + by apply (Peek_regular pq l rest).
  - intros Ev Er. split.
    + by apply Dequeue_empty.
    + by apply Peek_empty.
Qed.

Lemma tier_priority_witness :
  Dequeue sample.mixed_queue
  = (mkPQ [] (regularOrders sample.mixed_queue) (size sample.mixed_queue - 1),
     served 2%positive)
  /\ Peek sample.mixed_queue = served 2%positive
  /\ isVIPOrder sample.orders_heap 2%positive = true
  /\ 2%positive ∉ regularOrders sample.mixed_queue.
Proof.
  assert (Reachable sample.orders_heap sample.mixed_queue) as Hreach.
  { unfold sample.mixed_queue. repeat apply Reachable_Enqueue. apply Reachable_new. }
  apply (proj1 (tier_priority sample.orders_heap sample.mixed_queue Hreach)
               2%positive []).
  vm_compute. reflexivity.
Defined.

(** ** Conservation of the size counter *)

Lemma run_op_size h o pq :
  size (run_op h o pq).1
  = size pq + enqueued_ok h [o] pq - dequeued_ok h [o] pq.
Proof.
  destruct o as [[l|]|[l|]| | | |]; cbn [run_op enqueued_ok dequeued_ok].
  - unfold Enqueue. destruct (isVIPOrder h l); simpl; lia.
  - simpl. lia.
  - unfold EnqueueAtFront. destruct (isVIPOrder h l); simpl; lia.
  - simpl. lia.
  - unfold Dequeue. destruct (Z.eqb_spec (size pq) 0); simpl; [lia|].
    destruct (vipOrders pq), (regularOrders pq); simpl; lia.
  - simpl. lia.
  - simpl. lia.
  - simpl. lia.
Qed.

Lemma run_ops_size h os pq :
  size (run_ops h os pq) = size pq + enqueued_ok h os pq - dequeued_ok h os pq.
Proof.
  revert pq. induction os as [|o os IH]; intros pq.
  - simpl. lia.
  - cbn [run_ops]. rewrite IH. pose proof (run_op_size h o pq) as H1.
    cbn [enqueued_ok dequeued_ok] in *.
    destruct (run_op h o pq) as [pq' err]. simpl in *. lia.
Qed.

Lemma run_ops_size_consistent h os pq :
  size_consistent pq -> size_consistent (run_ops h os pq).
Proof.
  revert pq. induction os as [|o os IH]; intros pq Hsz; [done|].
  simpl. apply IH. by apply run_op_size_consistent.
Qed.

(** C6. Each of the six operations keeps the counter equal to the number of
    queued orders, and after any run of operations on a new queue [Size] is
    the number of enqueues and front inserts that succeeded minus the number
    of dequeues that succeeded. *)
Theorem size_conservation (h : heap) :
  (forall o pq, size_consistent pq -> size_consistent (run_op h o pq).1)
  /\ (forall os,
        size_consistent (run_ops h os NewPriorityQueue)
        /\ Size (run_ops h os NewPriorityQueue)
           = enqueued_ok h os NewPriorityQueue - dequeued_ok h os NewPriorityQueue).
Proof.
  split.
  - intros o pq. apply run_op_size_consistent.
  - intros os. split.
    + apply run_ops_size_consistent. reflexivity.
    + unfold Size. rewrite run_ops_size. simpl. lia.
Qed.

Lemma size_conservation_witness :
  size_consistent (run_op sample.orders_heap OpDequeue sample.mixed_queue).1
  /\ Size (run_ops sample.orders_heap
             [OpEnqueue (Some 1%positive); OpEnqueue None; OpDequeue; OpDequeue;
              OpDequeue; OpEnqueueAtFront (Some 2%positive); OpPeek]
             NewPriorityQueue) = 2 - 1.
Proof.
  split.
  - apply (proj1 (size_conservation sample.orders_heap) OpDequeue sample.mixed_queue).
    vm_compute. reflexivity.
  - apply (proj2 (proj2 (size_conservation sample.orders_heap)
       [OpEnqueue (Some 1%positive); OpEnqueue None; OpDequeue; OpDequeue;
        OpDequeue; OpEnqueueAtFront (Some 2%positive); OpPeek])).
Defined.

(** ** Rejected calls *)

Lemma Dequeue_error_is_empty pq e :
  (Dequeue pq).2.2 = Some e -> e = ErrEmptyQueue /\ size pq = 0.
Proof.
  unfold Dequeue. destruct (Z.eqb_spec (size pq) 0) as [E|E]; simpl.
  - intros [= <-]. done.
  - destruct (vipOrders pq), (regularOrders pq); simpl; discriminate.
Qed.

(** C8. [Enqueue] and [EnqueueAtFront] answer a nil order with [ErrNilOrder]
    and leave the queue as it was.  On a consistent queue [Dequeue] and
    [Peek] return an error exactly when both tiers are empty; the error is
    [ErrEmptyQueue], no order comes with it and the queue is unchanged. *)
Theorem rejected_calls (h : heap) (pq : PriorityQueue) :
  Enqueue h None pq = (pq, Some ErrNilOrder)
  /\ EnqueueAtFront h None pq = (pq, Some ErrNilOrder)
  /\ (size_consistent pq ->
      ((exists e, (Dequeue pq).2.2 = Some e)
         <-> vipOrders pq = [] /\ regularOrders pq = [])
      /\ ((exists e, (Peek pq).2 = Some e)
         <-> vipOrders pq = [] /\ regularOrders pq = [])
      /\ (vipOrders pq = [] /\ regularOrders pq = [] ->
          Dequeue pq = (pq, (None, Some ErrEmptyQueue))
          /\ Peek pq = (None, Some ErrEmptyQueue))).
Proof.
  split; [reflexivity|]. split; [reflexivity|]. intros Hsz.
  destruct (vipOrders pq) as [|l rest] eqn:Ev.
  - destruct (regularOrders pq) as [|l rest] eqn:Er.
    + rewrite (Dequeue_empty pq), (Peek_empty pq) by done. simpl.
      split; [|split]; [split; eauto | split; eauto | done].
    + rewrite (Dequeue_regular pq l rest), (Peek_regular pq l rest) by done.
      simpl. split; [|split].
      * split; [intros [e He] | intros [_ He]]; discriminate He.
      * split; [intros [e He] | intros [_ He]]; discriminate He.
      * intros [_ He]. discriminate He.
  - rewrite (Dequeue_vip pq l rest), (Peek_vip pq l rest) by done.
    simpl. split; [|split].
    + split; [intros [e He] | intros [He _]]; discriminate He.
    + split; [intros [e He] | intros [He _]]; discriminate He.
    + intros [He _]. discriminate He.
Qed.

Lemma rejected_calls_witness :
  ((exists e, (Dequeue NewPriorityQueue).2.2 = Some e)
     <-> vipOrders NewPriorityQueue = [] /\ regularOrders NewPriorityQueue = [])
  /\ ((exists e, (Peek NewPriorityQueue).2 = Some e)
     <-> vipOrders NewPriorityQueue = [] /\ regularOrders NewPriorityQueue = [])
  /\ (vipOrders NewPriorityQueue = [] /\ regularOrders NewPriorityQueue = [] ->
      Dequeue NewPriorityQueue = (NewPriorityQueue, (None, Some ErrEmptyQueue))
      /\ Peek NewPriorityQueue = (None, Some ErrEmptyQueue)).
Proof.
  apply (proj2 (proj2 (rejected_calls sample.orders_heap NewPriorityQueue))).
  reflexivity.
Defined.

(** ** Classification by customer role *)

(** A regular customer's order that is already being served. *)
Example serving_order_is_enqueued :
  Enqueue (<[1%positive := set_Status OrderStatusServing (sample.regular_order 1)]>
             sample.orders_heap)
          (Some 1%positive) NewPriorityQueue
  = (mkPQ [] [1%positive] 1, None).
Proof. vm_compute. reflexivity. Qed.

(** C9. A non-nil order is always accepted, whatever its status, and is
    placed by its [CustomerRole] alone: at the tail (for [Enqueue]) or the
    head (for [EnqueueAtFront]) of the VIP tier when the role is
    "VIP Customer", of the regular tier for every other role, the empty one
    included. *)
Theorem classified_by_role (h : heap) (pq : PriorityQueue) (l : loc) :
  (CustomerRole (h !!! l) = "VIP Customer" ->
     Enqueue h (Some l) pq
       = (mkPQ (vipOrders pq ++ [l]) (regularOrders pq) (size pq + 1), None)
     /\ EnqueueAtFront h (Some l) pq
       = (mkPQ (l :: vipOrders pq) (regularOrders pq) (size pq + 1), None))
  /\ (CustomerRole (h !!! l) <> "VIP Customer" ->
     Enqueue h (Some l) pq
       = (mkPQ (vipOrders pq) (regularOrders pq ++ [l]) (size pq + 1), None)
     /\ EnqueueAtFront h (Some l) pq
       = (mkPQ (vipOrders pq) (l :: regularOrders pq) (size pq + 1), None))
  /\ (forall st c,
     let h' := <[l := set_AssignedCookUser c (set_Status st (h !!! l))]> h in
     Enqueue h' (Some l) pq = Enqueue h (Some l) pq
     /\ EnqueueAtFront h' (Some l) pq = EnqueueAtFront h (Some l) pq
     /\ (Enqueue h' (Some l) pq).2 = None
     /\ (EnqueueAtFront h' (Some l) pq).2 = None).
Proof.
  unfold Enqueue, EnqueueAtFront, isVIPOrder, RoleVIPCustomer.
  split; [|split].
  - intros ->. by rewrite String.eqb_refl.
  - intros Hne. apply String.eqb_neq in Hne. by rewrite Hne.
  - intros st c. cbv zeta. rewrite lookup_total_insert_eq. simpl.
    by destruct (CustomerRole (h !!! l) =? "VIP Customer")%string.
Qed.

Lemma classified_by_role_witness :
  (Enqueue sample.orders_heap (Some 2%positive) sample.mixed_queue
     = (mkPQ (vipOrders sample.mixed_queue ++ [2%positive])
             (regularOrders sample.mixed_queue) (size sample.mixed_queue + 1), None)
   /\ EnqueueAtFront sample.orders_heap (Some 2%positive) sample.mixed_queue
     = (mkPQ (2%positive :: vipOrders sample.mixed_queue)
             (regularOrders sample.mixed_queue) (size sample.mixed_queue + 1), None))
  /\ (Enqueue sample.orders_heap (Some 9%positive) sample.mixed_queue
     = (mkPQ (vipOrders sample.mixed_queue)
             (regularOrders sample.mixed_queue ++ [9%positive])
             (size sample.mixed_queue + 1), None)
   /\ EnqueueAtFront sample.orders_heap (Some 9%positive) sample.mixed_queue
     = (mkPQ (vipOrders sample.mixed_queue)
             (9%positive :: regularOrders sample.mixed_queue)
             (size sample.mixed_queue + 1), None)).
Proof.
  split.
  - apply (proj1 (classified_by_role sample.orders_heap sample.mixed_queue 2%positive)).
    vm_compute. reflexivity.
  - apply (proj1 (proj2 (classified_by_role sample.orders_heap sample.mixed_queue
                           9%positive))).
    vm_compute. discriminate.
Defined.

(** ** [Dequeue] never returns nothing without an error *)

(** C10. On a queue whose counter equals the number of queued orders,
    [Dequeue] returns an order with a nil error, or no order with
    [ErrEmptyQueue], never a nil order with a nil error, and the counter
    stays non-negative.  The guarantee rests on the invariant: the empty
    test reads the counter only, and with a counter of 1 over two empty
    tiers [Dequeue] returns a nil order with a nil error. *)
Theorem Dequeue_total (pq : PriorityQueue) :
  (size_consistent pq ->
     ((exists l, (Dequeue pq).2 = (Some l, None))
      \/ (Dequeue pq).2 = (None, Some ErrEmptyQueue))
     /\ (Dequeue pq).2 <> (None, None)
     /\ 0 <= size (Dequeue pq).1)
  /\ Dequeue (mkPQ [] [] 1) = (mkPQ [] [] 0, (None, None))
  /\ ~ size_consistent (mkPQ [] [] 1).
Proof.
  split; [|split; [reflexivity | unfold size_consistent; simpl; lia]].
  intros Hsz. pose proof Hsz as Hsz'. unfold size_consistent in Hsz'.
  destruct (vipOrders pq) as [|l rest] eqn:Ev.
  - destruct (regularOrders pq) as [|l rest] eqn:Er.
    + rewrite (Dequeue_empty pq) by done. simpl in *.
      split; [by right|]. split; [done | lia].
    + rewrite (Dequeue_regular pq l rest) by done. simpl in *.
      split; [left; by exists l|]. split; [done | lia].
  - rewrite (Dequeue_vip pq l rest) by done. simpl in *.
    split; [left; by exists l|]. split; [done | lia].
Qed.

Lemma Dequeue_total_witness :
  ((exists l, (Dequeue sample.mixed_queue).2 = (Some l, None))
   \/ (Dequeue sample.mixed_queue).2 = (None, Some ErrEmptyQueue))
  /\ (Dequeue sample.mixed_queue).2 <> (None, None)
  /\ 0 <= size (Dequeue sample.mixed_queue).1.
Proof.
  apply (proj1 (Dequeue_total sample.mixed_queue)).
  vm_compute. reflexivity.
Defined.

(** ** Each tier is a first-in first-out queue *)

Lemma run_op_tiers_sorted h o pq :
  tiers_sorted h pq -> tiers_sorted h (run_op h o pq).1.
Proof.
  intros Hs. destruct o; simpl; try done.
  - by apply Enqueue_tiers_sorted.
  - by apply EnqueueAtFront_tiers_sorted.
  - pose proof (Dequeue_tiers_sorted h pq Hs) as H.
    by destruct (Dequeue pq) as [pq' [o e]].
Qed.

Lemma of_tier_cons h b l ls :
  of_tier h b (l :: ls)
  = if Bool.eqb (isVIPOrder h l) b then l :: of_tier h b ls else of_tier h b ls.
Proof.
  unfold of_tier. rewrite filter_cons.
  destruct (isVIPOrder h l), b; simpl; reflexivity.
Qed.

(** In a run of enqueues and dequeues, interleaved in any way, the orders of
    a tier that were returned, followed by those still queued in the tier,
    are the orders the tier held at the start followed by those enqueued
    into it, in the order of the calls. *)
Lemma tier_fifo_law h b os pq :
  size_consistent pq -> tiers_sorted h pq -> no_front os ->
  of_tier h b (returned h os pq) ++ tier b (run_ops h os pq)
  = tier b pq ++ of_tier h b (accepted os).
Proof.
  revert pq. induction os as [|o os IH]; intros pq Hsz Hs Hnf.
  - simpl. by rewrite app_nil_r.
  - apply Forall_cons in Hnf as [Ho Hnf].
    pose proof (IH _ (run_op_size_consistent h o pq Hsz)
                     (run_op_tiers_sorted h o pq Hs) Hnf) as IH'.
    destruct o as [[l|]|order| | | |]; cbn [returned accepted run_ops] in *;
      try done.
    + rewrite IH'. rewrite of_tier_cons. cbn [run_op]. unfold Enqueue.
      destruct (isVIPOrder h l), b; simpl; by rewrite <- ?app_assoc.
    + destruct Hs as [Hv Hr].
      destruct (vipOrders pq) as [|x rest] eqn:Ev.
      * destruct (regularOrders pq) as [|x rest] eqn:Er.
        -- cbn [run_op] in *. rewrite (Dequeue_empty pq) in * by done.
           simpl in *. exact IH'.
        -- cbn [run_op] in *. rewrite (Dequeue_regular pq x rest) in * by done.
           simpl in *. rewrite of_tier_cons.
           apply Forall_cons in Hr as [-> _].
           destruct b; simpl in *; rewrite ?Ev, ?Er; [exact IH'|].
           by rewrite IH'.
      * cbn [run_op] in *. rewrite (Dequeue_vip pq x rest) in * by done.
        simpl in *. rewrite of_tier_cons.
        apply Forall_cons in Hv as [-> _].
        destruct b; simpl in *; rewrite ?Ev; [|exact IH'].
        by rewrite IH'.
Qed.

(** ** Order within a tier *)

(** C4. Orders of one tier enqueued one after the other, with no front
    insert in between, are returned by repeated [Dequeue] in the order they
    were enqueued: draining the queue yields the VIP orders that were there,
    then the new ones in enqueue order when they are VIP, then the regular
    orders that were there, then the new ones in enqueue order when they
    are regular.  The same holds with the dequeues interleaved with the
    enqueues in any way: the orders of a tier that a run returns are an
    initial part of the orders the tier held followed by the orders enqueued
    into it, in enqueue order. *)
Theorem fifo_within_tier (h : heap) (pq : PriorityQueue) (ls : list loc) :
  size_consistent pq ->
  let n := (length (vipOrders pq) + length (regularOrders pq) + length ls)%nat in
  (Forall (fun l => isVIPOrder h l = true) ls ->
     (DequeueN n (EnqueueAll h ls pq)).1
     = map served (vipOrders pq ++ ls ++ regularOrders pq))
  /\ (Forall (fun l => isVIPOrder h l = false) ls ->
     (DequeueN n (EnqueueAll h ls pq)).1
     = map served (vipOrders pq ++ regularOrders pq ++ ls))
  /\ (forall os vip, tiers_sorted h pq -> no_front os ->
     of_tier h vip (returned h os pq)
       `prefix_of` tier vip pq ++ of_tier h vip (accepted os)).
Proof.
  intros Hsz n. subst n.
  assert (forall os vip, tiers_sorted h pq -> no_front os ->
            of_tier h vip (returned h os pq)
              `prefix_of` tier vip pq ++ of_tier h vip (accepted os)) as Hrun.
  { intros os vip Hs Hnf. exists (tier vip (run_ops h os pq)).
    symmetry. by apply tier_fifo_law. }
  unfold size_consistent in Hsz.
  rewrite EnqueueAll_spec. split; [|split; [|exact Hrun]]; intros Hall.
  - rewrite (filter_all ls _ Hall).
    rewrite (filter_none ls (fun l => isVIPOrder h l = false)).
    2:{ eapply Forall_impl; [exact Hall|]. intros l E. simpl in E. congruence. }
    rewrite app_nil_r.
    replace (length (vipOrders pq) + length (regularOrders pq) + length ls)%nat
      with (length (vipOrders pq ++ ls) + length (regularOrders pq))%nat
      by (rewrite length_app; lia).
    rewrite DequeueN_drain by (rewrite length_app; lia).
    simpl. by rewrite <- !app_assoc.
  - rewrite (filter_all ls _ Hall).
    rewrite (filter_none ls (fun l => isVIPOrder h l = true)).
    2:{ eapply Forall_impl; [exact Hall|]. intros l E. simpl in E. congruence. }
    rewrite app_nil_r.
    replace (length (vipOrders pq) + length (regularOrders pq) + length ls)%nat
      with (length (vipOrders pq) + length (regularOrders pq ++ ls))%nat
      by (rewrite length_app; lia).
    rewrite DequeueN_drain by (rewrite length_app; lia).
    reflexivity.
Qed.

Lemma fifo_within_tier_witness :
  (DequeueN 3 (EnqueueAll sample.orders_heap [1%positive; 3%positive; 4%positive]
                 NewPriorityQueue)).1
  = map served ([] ++ [] ++ [1%positive; 3%positive; 4%positive])
  /\ of_tier sample.orders_heap false
       (returned sample.orders_heap
          [OpEnqueue (Some 1%positive); OpDequeue; OpEnqueue (Some 3%positive);
           OpEnqueue (Some 4%positive); OpDequeue] NewPriorityQueue)
     `prefix_of`
     tier false NewPriorityQueue
     ++ of_tier sample.orders_heap false
          (accepted [OpEnqueue (Some 1%positive); OpDequeue; OpEnqueue (Some 3%positive);
                     OpEnqueue (Some 4%positive); OpDequeue]).
Proof.
  split.
  - apply (proj1 (proj2 (fifo_within_tier sample.orders_heap NewPriorityQueue
                           [1%positive; 3%positive; 4%positive] eq_refl))).
    repeat constructor.
  - apply (proj2 (proj2 (fifo_within_tier sample.orders_heap NewPriorityQueue
                           [] eq_refl))).
    + split; constructor.
    + repeat constructor.
Defined.

(** ** Front insertion *)

(** Scenario 2 of the specification: regular A, B, C enqueued, then D put
    at the front, come out as D, A, B, C. *)
Example dequeue_order_front :
  (DequeueN 4
     (EnqueueAtFront sample.orders_heap (Some 4%positive)
        (EnqueueAll sample.orders_heap [1%positive; 3%positive] NewPriorityQueue)).1).1
  = [served 4%positive; served 1%positive; served 3%positive;
     (None, Some ErrEmptyQueue)].
Proof. vm_compute. reflexivity. Qed.

(** C5. An order put at the front of its tier is dequeued before every order
    that was in that tier and before every order enqueued into that tier
    afterwards: draining the queue after the front insert of [l] and the
    later enqueues [later] yields [l] first among the orders of its tier,
    then the orders already there, then the later ones.  The same holds
    with dequeues interleaved with the later enqueues in any way: the orders
    of the tier that such a run returns are an initial part of [l], the
    orders already there, and the later ones, in that order. *)
Theorem front_insert_first (h : heap) (pq : PriorityQueue) (l : loc) (later : list loc) :
  size_consistent pq ->
  let pq' := EnqueueAll h later (EnqueueAtFront h (Some l) pq).1 in
  let n := S (length (vipOrders pq) + length (regularOrders pq) + length later) in
  let later_vip := filter (fun x => isVIPOrder h x = true) later in
  let later_regular := filter (fun x => isVIPOrder h x = false) later in
  (isVIPOrder h l = true ->
     (DequeueN n pq').1
     = map served (l :: vipOrders pq ++ later_vip ++ regularOrders pq ++ later_regular))
  /\ (isVIPOrder h l = false ->
     (DequeueN n pq').1
     = map served (vipOrders pq ++ later_vip ++ l :: regularOrders pq ++ later_regular))
  /\ (forall os, tiers_sorted h pq -> no_front os ->
     of_tier h (isVIPOrder h l) (returned h os (EnqueueAtFront h (Some l) pq).1)
       `prefix_of` l :: tier (isVIPOrder h l) pq
                   ++ of_tier h (isVIPOrder h l) (accepted os)).
Proof.
  intros Hsz pq' n later_vip later_regular. subst pq' n.
  assert (forall os, tiers_sorted h pq -> no_front os ->
     of_tier h (isVIPOrder h l) (returned h os (EnqueueAtFront h (Some l) pq).1)
       `prefix_of` l :: tier (isVIPOrder h l) pq
                   ++ of_tier h (isVIPOrder h l) (accepted os)) as Hrun.
  { intros os Hs Hnf.
    exists (tier (isVIPOrder h l) (run_ops h os (EnqueueAtFront h (Some l) pq).1)).
    pose proof (tier_fifo_law h (isVIPOrder h l) os _
                  (EnqueueAtFront_size_consistent h (Some l) pq Hsz)
                  (EnqueueAtFront_tiers_sorted h (Some l) pq Hs) Hnf) as Hlaw.
    rewrite Hlaw. f_equal. unfold EnqueueAtFront. by destruct (isVIPOrder h l). }
  unfold size_consistent in Hsz.
  assert (length later = length later_vip + length later_regular)%nat as Hlen.
  { subst later_vip later_regular. clear. induction later as [|x xs IH]; [done|].
    rewrite !filter_cons. destruct (isVIPOrder h x); simpl; lia. }
  rewrite EnqueueAll_spec. unfold EnqueueAtFront.
  fold later_vip later_regular.
  split; [|split; [|exact Hrun]]; intros E; rewrite E;
    simpl vipOrders; simpl regularOrders; simpl size.
  - replace (S (length (vipOrders pq) + length (regularOrders pq) + length later))
      with (length ((l :: vipOrders pq) ++ later_vip)
            + length (regularOrders pq ++ later_regular))%nat
      by (rewrite !length_app; simpl; lia).
    rewrite DequeueN_drain by (rewrite !length_app; simpl; lia).
    simpl. by rewrite <- !app_assoc.
  - replace (S (length (vipOrders pq) + length (regularOrders pq) + length later))
      with (length (vipOrders pq ++ later_vip)
            + length ((l :: regularOrders pq) ++ later_regular))%nat
      by (rewrite !length_app; simpl; lia).
    rewrite DequeueN_drain by (rewrite !length_app; simpl; lia).
    simpl. by rewrite <- !app_assoc.
Qed.

Lemma front_insert_first_witness :
  (DequeueN 6
     (EnqueueAll sample.orders_heap [5%positive; 3%positive]
        (EnqueueAtFront sample.orders_heap (Some 4%positive) sample.mixed_queue).1)).1
  = map served ([2%positive] ++ [5%positive] ++ 4%positive :: [1%positive; 3%positive]
                ++ [3%positive])
  /\ of_tier sample.orders_heap (isVIPOrder sample.orders_heap 4%positive)
       (returned sample.orders_heap
          [OpDequeue; OpEnqueue (Some 3%positive); OpDequeue; OpDequeue]
          (EnqueueAtFront sample.orders_heap (Some 4%positive) sample.mixed_queue).1)
     `prefix_of`
     4%positive :: tier (isVIPOrder sample.orders_heap 4%positive) sample.mixed_queue
     ++ of_tier sample.orders_heap (isVIPOrder sample.orders_heap 4%positive)
          (accepted [OpDequeue; OpEnqueue (Some 3%positive); OpDequeue; OpDequeue]).
Proof.
  split.
  - apply (proj1 (proj2 (front_insert_first sample.orders_heap sample.mixed_queue
                           4%positive [5%positive; 3%positive] eq_refl))).
    vm_compute. reflexivity.
  - apply (proj2 (proj2 (front_insert_first sample.orders_heap sample.mixed_queue
                           4%positive [] eq_refl))).
    + split; repeat constructor.
    + repeat constructor.
Defined.

(** * Properties of the cook service over the in-memory repositories *)

Section memory_service.
Import memory.
Implicit Types (w : World Store) (h : heap) (l : loc) (m : list (Z * loc)).

Lemma orders_lookup_elem m k l :
  NoDup (map fst m) -> (k, l) ∈ m -> orders_lookup k m = Some l.
Proof.
  induction m as [|[k' l'] m IH]; simpl; intros Hnd Hin.
  - by apply elem_of_nil in Hin.
  - apply NoDup_cons in Hnd as [Hk Hnd].
    apply elem_of_cons in Hin as [[= -> ->]|Hin].
    + by rewrite Z.eqb_refl.
    + destruct (Z.eqb_spec k' k) as [->|_]; [|by apply IH].
      exfalso. apply Hk. apply (list_elem_of_fmap_2 fst _ (k, l)). done.
Qed.

Lemma indexed_backed w l :
  store_indexed w -> l ∈ map snd (orders (w_store w)) ->
  orders_lookup (ID (w_heap w !!! l)) (orders (w_store w)) = Some l.
Proof.
  intros [Hnd Hid] Hin.
  apply list_elem_of_fmap in Hin as [[k l'] [-> Hin]]. simpl.
  rewrite Forall_forall in Hid. specialize (Hid _ Hin). simpl in Hid.
  rewrite Hid. by apply orders_lookup_elem.
Qed.

Lemma indexed_NoDup w :
  store_indexed w -> NoDup (map snd (orders (w_store w))).
Proof.
  intros [Hnd Hid]. induction (orders (w_store w)) as [|[k l] m IH]; simpl.
  - constructor.
  - simpl in Hnd. apply NoDup_cons in Hnd as [Hk Hnd].
    apply Forall_cons in Hid as [Hkl Hid]. simpl in Hkl.
    apply NoDup_cons. split; [|by apply IH].
    intros Hin. apply list_elem_of_fmap in Hin as [[k' l'] [-> Hin]]. simpl in *.
    rewrite Forall_forall in Hid. specialize (Hid _ Hin). simpl in Hid.
    apply (list_elem_of_fmap_2 fst _ (k', l')) in Hin. simpl in Hin.
    assert (k = k') as -> by congruence. by apply Hk.
Qed.

(** ** AcceptOrder *)

(** The calls that are turned down leave everything as it was. *)
Lemma AcceptOrder_refuses w id :
  (users (w_store w) !! id = None ->
     AcceptOrder id w
     = Returns w (None, Some (ErrorfWrap "cook not found" (ErrorfInt "user not found" id))))
  /\ (forall u, users (w_store w) !! id = Some u -> IsCook u = false ->
     AcceptOrder id w = Returns w (None, Some (Errorf "user is not a cook")))
  /\ (forall u, users (w_store w) !! id = Some u -> IsCook u = true ->
     IsDeleted u = true ->
     AcceptOrder id w = Returns w (None, Some (Errorf "cook is deleted")))
  /\ (active_cook w id -> IsEmpty (orderQueue w) = true ->
     AcceptOrder id w = Returns w (None, Some (Errorf "no orders in queue"))).
Proof.
  destruct w as [h s pq ws]. unfold active_cook, IsEmpty. simpl.
  unfold AcceptOrder. cbn [GetByID memory_UserRepository w_store w_heap
                           orderQueue workers].
  unfold UserRepository.GetByID.
  split; [|split; [|split]].
  - intros ->. reflexivity.
  - intros u -> Hc. by rewrite Hc.
  - intros u -> Hc Hd. by rewrite Hc, Hd.
  - intros (u & -> & Hc & Hd) He. rewrite Hc, Hd. simpl.
    unfold Dequeue. by rewrite He.
Qed.

(** On a non-empty consistent queue [Dequeue] hands out a queued order. *)
Lemma Dequeue_nonempty pq :
  size_consistent pq -> IsEmpty pq = false ->
  exists l pq', Dequeue pq = (pq', served l)
                /\ l ∈ vipOrders pq ++ regularOrders pq
                /\ vipOrders pq' ++ regularOrders pq' ⊆ vipOrders pq ++ regularOrders pq.
Proof.
  unfold IsEmpty. intros Hsz He.
  destruct (vipOrders pq) as [|l rest] eqn:Ev.
  - destruct (regularOrders pq) as [|l rest] eqn:Er.
    + unfold size_consistent in Hsz. rewrite Ev, Er in Hsz.
      simpl in Hsz. apply Z.eqb_neq in He. lia.
    + exists l, (mkPQ [] rest (size pq - 1)). split; [by apply Dequeue_regular|].
      simpl. split; [apply elem_of_cons; by left|].
      intros x Hx. apply elem_of_cons. by right.
  - exists l, (mkPQ rest (regularOrders pq) (size pq - 1)).
    split; [by apply Dequeue_vip|].
    simpl. split; [apply elem_of_cons; by left|].
    intros x Hx. apply elem_of_cons. by right.
Qed.

(** An active cook is given the order that [Dequeue] hands out, and the
    binding is written through the repository to that very order. *)
Lemma AcceptOrder_serves w id :
  size_consistent (orderQueue w) -> queue_backed w ->
  active_cook w id -> IsEmpty (orderQueue w) = false ->
  exists l pq',
    Dequeue (orderQueue w) = (pq', served l)
    /\ l ∈ vipOrders (orderQueue w) ++ regularOrders (orderQueue w)
    /\ vipOrders pq' ++ regularOrders pq'
       ⊆ vipOrders (orderQueue w) ++ regularOrders (orderQueue w)
    /\ AcceptOrder id w
       = Returns (mkWorld (bound id l (w_heap w)) (w_store w) pq' (workers w))
                 (Some l, None).
Proof.
  destruct w as [h s pq ws]. unfold queue_backed, active_cook. simpl.
  intros Hsz Hbacked (u & Hu & Hc & Hd) He.
  destruct (Dequeue_nonempty pq Hsz He) as (l & pq' & HD & Hin & Hsub).
  exists l, pq'. split; [exact HD|]. split; [exact Hin|]. split; [exact Hsub|].
  rewrite Forall_forall in Hbacked. specialize (Hbacked l Hin).
  unfold AcceptOrder. cbn [GetByID memory_UserRepository w_store w_heap
                           orderQueue workers].
  unfold UserRepository.GetByID. rewrite Hu, Hc, Hd. simpl.
  rewrite HD. unfold served.
  cbn [AssignCook UpdateStatus memory_OrderRepository].
  unfold OrderRepository.AssignCook. rewrite Hbacked.
  unfold OrderRepository.UpdateStatus. rewrite lookup_total_insert_eq.
  cbn [ID set_AssignedCookUser]. rewrite Hbacked.
  by rewrite insert_insert_eq, !lookup_total_insert_eq.
Qed.

(** C7. [AcceptOrder] fails with "cook not found" when no user has the given
    ID, with "user is not a cook" when the user is not a cook and with
    "cook is deleted" when the cook was removed, each time leaving the queue
    and everything else untouched; for an active cook it fails with
    "no orders in queue" on an empty queue, and otherwise returns the order
    [Dequeue] gives, now in status SERVING and assigned to that cook; and
    whenever it returns an order with a nil error, that order is the one
    [Dequeue] gave, in status SERVING and assigned to that cook. *)
Theorem AcceptOrder_contract (w : World Store) (id : Z) :
  size_consistent (orderQueue w) -> queue_backed w ->
  (users (w_store w) !! id = None ->
     AcceptOrder id w
     = Returns w (None, Some (ErrorfWrap "cook not found" (ErrorfInt "user not found" id))))
  /\ (forall u, users (w_store w) !! id = Some u -> IsCook u = false ->
     AcceptOrder id w = Returns w (None, Some (Errorf "user is not a cook")))
  /\ (forall u, users (w_store w) !! id = Some u -> IsCook u = true ->
     IsDeleted u = true ->
     AcceptOrder id w = Returns w (None, Some (Errorf "cook is deleted")))
  /\ (active_cook w id -> IsEmpty (orderQueue w) = true ->
     AcceptOrder id w = Returns w (None, Some (Errorf "no orders in queue")))
  /\ (active_cook w id -> IsEmpty (orderQueue w) = false ->
     exists l pq' h',
       Dequeue (orderQueue w) = (pq', served l)
       /\ AcceptOrder id w
          = Returns (mkWorld h' (w_store w) pq' (workers w)) (Some l, None)
       /\ Status (h' !!! l) = OrderStatusServing
       /\ AssignedCookUser (h' !!! l) = Some id
       /\ forall l', l' <> l -> h' !! l' = w_heap w !! l')
  /\ (forall w' l, AcceptOrder id w = Returns w' (Some l, None) ->
     (Dequeue (orderQueue w)).2 = served l
     /\ orderQueue w' = (Dequeue (orderQueue w)).1
     /\ Status (w_heap w' !!! l) = OrderStatusServing
     /\ AssignedCookUser (w_heap w' !!! l) = Some id).
Proof.
  intros Hsz Hbacked.
  destruct (AcceptOrder_refuses w id) as (H1 & H2 & H3 & H4).
  repeat (split; [assumption|]).
  split.
  - intros Hcook He.
    destruct (AcceptOrder_serves w id Hsz Hbacked Hcook He)
      as (l & pq' & HD & _ & _ & HA).
    exists l, pq', (bound id l (w_heap w)).
    split; [exact HD|]. split; [exact HA|]. unfold bound.
    rewrite lookup_total_insert_eq. split; [reflexivity|]. split; [reflexivity|].
    intros l' Hne. by rewrite lookup_insert_ne.
  - intros w' l HR.
    destruct (users (w_store w) !! id) as [u|] eqn:Hu;
      [|rewrite H1 in HR by done; discriminate].
    destruct (IsCook u) eqn:Hc; [|rewrite (H2 u) in HR by done; discriminate].
    destruct (IsDeleted u) eqn:Hd; [rewrite (H3 u) in HR by done; discriminate|].
    assert (active_cook w id) as Hcook by (by exists u).
    destruct (IsEmpty (orderQueue w)) eqn:He; [rewrite H4 in HR by done; discriminate|].
    destruct (AcceptOrder_serves w id Hsz Hbacked Hcook He)
      as (l0 & pq' & HD & _ & _ & HA).
    rewrite HA in HR. injection HR as <- <-. rewrite HD. simpl.
    unfold bound. by rewrite lookup_total_insert_eq.
Qed.

End memory_service.

Section memory_removal.
Import memory.
Implicit Types (w : World Store) (s : Store) (h : heap) (l : loc) (os : list loc).

(** ** The loop of RemoveCook *)

Lemma filter_ext_in (P Q : loc -> Prop) `{!forall l, Decision (P l)}
    `{!forall l, Decision (Q l)} os :
  (forall l, l ∈ os -> P l <-> Q l) -> filter P os = filter Q os.
Proof.
  induction os as [|l os IH]; intros Hext; [done|].
  rewrite !filter_cons.
  assert (filter P os = filter Q os) as ->.
  { apply IH. intros x Hx. apply Hext. apply elem_of_cons. by right. }
  assert (P l <-> Q l) as Hl by (apply Hext; apply elem_of_cons; by left).
  destruct (decide (P l)), (decide (Q l)); tauto.
Qed.

Lemma requeued_lookup_ne l l' h : l <> l' -> requeued l h !!! l' = h !!! l'.
Proof. intros Hne. unfold requeued. by rewrite lookup_total_insert_ne. Qed.

Lemma requeued_ID l l' h : ID (requeued l h !!! l') = ID (h !!! l').
Proof.
  unfold requeued. destruct (decide (l = l')) as [->|Hne].
  - by rewrite lookup_total_insert_eq.
  - by rewrite lookup_total_insert_ne.
Qed.

Lemma requeued_isVIPOrder l l' h : isVIPOrder (requeued l h) l' = isVIPOrder h l'.
Proof.
  unfold isVIPOrder, requeued. destruct (decide (l = l')) as [->|Hne].
  - by rewrite lookup_total_insert_eq.
  - by rewrite lookup_total_insert_ne.
Qed.

Lemma to_requeue_requeued l h vip os :
  l ∉ os -> to_requeue (requeued l h) vip os = to_requeue h vip os.
Proof.
  intros Hl. unfold to_requeue. apply filter_ext_in. intros x Hx.
  assert (l <> x) as Hne by (intros ->; done).
  unfold is_active. by rewrite requeued_isVIPOrder, requeued_lookup_ne.
Qed.

Lemma to_requeue_cons h vip l os :
  to_requeue h vip (l :: os)
  = if is_active h l && Bool.eqb (isVIPOrder h l) vip
    then l :: to_requeue h vip os else to_requeue h vip os.
Proof.
  unfold to_requeue. rewrite filter_cons.
  destruct (is_active h l && Bool.eqb (isVIPOrder h l) vip); by simpl.
Qed.

(** On distinct orders that the repository holds under their IDs, the loop
    leaves the store alone, resets each pending or served order, and puts
    those orders in front of their tiers, the last one visited first. *)
Lemma requeue_orders_spec s os h pq :
  NoDup os ->
  Forall (fun l => orders_lookup (ID (h !!! l)) (orders s) = Some l) os ->
  requeue_orders os s h pq
  = (s, requeue_heap os h,
     mkPQ (rev (to_requeue h true os) ++ vipOrders pq)
          (rev (to_requeue h false os) ++ regularOrders pq)
          (size pq + Z.of_nat (length (to_requeue h true os)
                               + length (to_requeue h false os)))).
Proof.
  revert h pq. induction os as [|l os IH]; intros h pq Hnd Hb.
  - destruct pq as [v r n]. simpl. do 2 f_equal. lia.
  - apply NoDup_cons in Hnd as [Hl Hnd]. apply Forall_cons in Hb as [Hbl Hb].
    rewrite !to_requeue_cons. cbn [requeue_orders requeue_heap foldl].
    fold (is_active h l). destruct (is_active h l) eqn:Ea.
    + cbn [UpdateStatus UnassignCook memory_OrderRepository].
      unfold OrderRepository.UpdateStatus. rewrite Hbl.
      unfold OrderRepository.UnassignCook. rewrite lookup_total_insert_eq.
      cbn [ID set_Status]. rewrite Hbl.
      rewrite insert_insert_eq, lookup_total_insert_eq. fold (requeued l h).
      assert (Forall (fun x => orders_lookup (ID (requeued l h !!! x)) (orders s) = Some x) os)
        as Hb'.
      { eapply Forall_impl; [exact Hb|]. intros x Hx. simpl in *.
        by rewrite requeued_ID. }
      unfold EnqueueAtFront. rewrite requeued_isVIPOrder.
      destruct (isVIPOrder h l) eqn:Ev; simpl;
        rewrite (IH _ _ Hnd Hb'), !to_requeue_requeued by done; simpl;
        rewrite ?length_app, <- ?app_assoc; simpl; do 2 f_equal; lia.
    + simpl. by rewrite (IH _ _ Hnd Hb).
Qed.

Lemma requeue_heap_other os h l :
  l ∉ os -> requeue_heap os h !! l = h !! l.
Proof.
  revert h. induction os as [|x os IH]; intros h Hl; [done|].
  apply not_elem_of_cons in Hl as [Hne Hl]. cbn [requeue_heap foldl].
  fold (requeue_heap os (if is_active h x then requeued x h else h)).
  rewrite IH by done. destruct (is_active h x); [|done].
  unfold requeued. by rewrite lookup_insert_ne.
Qed.

Lemma requeue_heap_active os h l :
  NoDup os -> l ∈ os -> is_active h l = true ->
  requeue_heap os h !!! l
  = set_AssignedCookUser None (set_Status OrderStatusPending (h !!! l)).
Proof.
  revert h. induction os as [|x os IH]; intros h Hnd Hin Ha.
  - by apply elem_of_nil in Hin.
  - apply NoDup_cons in Hnd as [Hx Hnd]. cbn [requeue_heap foldl].
    fold (requeue_heap os (if is_active h x then requeued x h else h)).
    apply elem_of_cons in Hin as [->|Hin].
    + rewrite Ha. rewrite lookup_total_alt, requeue_heap_other by done.
      rewrite <- lookup_total_alt. unfold requeued. by rewrite lookup_total_insert_eq.
    + assert (x <> l) as Hne by (intros ->; done).
      destruct (is_active h x).
      * rewrite IH; [by rewrite requeued_lookup_ne | done | done |].
        unfold is_active in *. by rewrite requeued_lookup_ne.
      * by apply IH.
Qed.

End memory_removal.

Section memory_RemoveCook.
Import memory.
Implicit Types (w : World Store) (s : Store) (h : heap) (l : loc) (os : list loc).

Lemma filter_singleton (P : loc -> Prop) `{!forall l, Decision (P l)} os l :
  NoDup os -> l ∈ os -> P l -> (forall x, x ∈ os -> x <> l -> ~ P x) ->
  filter P os = [l].
Proof.
  induction os as [|x os IH]; intros Hnd Hin HP Hothers.
  - by apply elem_of_nil in Hin.
  - apply NoDup_cons in Hnd as [Hx Hnd]. rewrite filter_cons.
    apply elem_of_cons in Hin as [->|Hin].
    + rewrite decide_True by done. f_equal.
      apply filter_none. apply Forall_forall. intros y Hy.
      apply Hothers; [apply elem_of_cons; by right | intros ->; done].
    + rewrite decide_False.
      * apply IH; try done. intros y Hy. apply Hothers. apply elem_of_cons. by right.
      * apply Hothers; [apply elem_of_cons; by left | intros ->; done].
Qed.

Lemma elem_of_rev l os : l ∈ rev os <-> l ∈ os.
Proof. rewrite !list_elem_of_In. symmetry. apply in_rev. Qed.

Lemma assigned_to_spec h id l :
  assigned_to h id l = true <-> AssignedCookUser (h !!! l) = Some id.
Proof.
  unfold assigned_to. destruct (AssignedCookUser (h !!! l)) as [c|].
  - rewrite Z.eqb_eq. split; congruence.
  - split; discriminate.
Qed.

(** What a removal does for an active cook, over well-indexed orders. *)
Lemma RemoveCook_active w now id u :
  store_indexed w ->
  users (w_store w) !! id = Some u -> IsCook u = true -> IsDeleted u = false ->
  let os := filter (fun l => assigned_to (w_heap w) id l = true)
                   (map snd (orders (w_store w))) in
  RemoveCook now id w
  = Returns
      (mkWorld (requeue_heap os (w_heap w))
         (mkStore (<[id := set_User_DeletedAt (Some now) u]> (users (w_store w)))
                  (orders (w_store w)))
         (mkPQ (rev (to_requeue (w_heap w) true os) ++ vipOrders (orderQueue w))
               (rev (to_requeue (w_heap w) false os) ++ regularOrders (orderQueue w))
               (size (orderQueue w)
                + Z.of_nat (length (to_requeue (w_heap w) true os)
                            + length (to_requeue (w_heap w) false os))))
         (stopWorker id (workers w)))
      None.
Proof.
  intros Hidx Hu Hc Hd os. destruct w as [h s pq ws]. simpl in *.
  unfold RemoveCook.
  cbn [GetByID SoftDelete GetByCookID memory_UserRepository
       memory_OrderRepository w_store w_heap orderQueue workers].
  unfold UserRepository.GetByID. rewrite Hu, Hc, Hd. cbn [negb].
  unfold OrderRepository.GetByCookID. fold os.
  rewrite requeue_orders_spec.
  - unfold UserRepository.SoftDelete. by rewrite Hu.
  - apply NoDup_filter. apply (indexed_NoDup _ Hidx).
  - apply Forall_forall. intros l Hl. apply list_elem_of_filter in Hl as [_ Hl].
    apply (indexed_backed _ l Hidx Hl).
Qed.

(** C3, as the code has it.  When cook [id] holds the order at [X], a removal
    of the cook succeeds and leaves that order pending with no cook
    assigned; the order is put in front of every order that was queued in
    its tier, with only other orders of the removed cook before it; and it
    is the head of its tier, hence the next order of that tier that
    [Dequeue] returns, when the cook holds no other pending or served order
    of that tier. *)
Theorem RemoveCook_requeues (w : World Store) (now id : Z) (X : loc) :
  store_indexed w -> size_consistent (orderQueue w) ->
  active_cook w id -> holds w id X ->
  let vip := isVIPOrder (w_heap w) X in
  exists w',
    RemoveCook now id w = Returns w' None
    /\ Status (w_heap w' !!! X) = OrderStatusPending
    /\ AssignedCookUser (w_heap w' !!! X) = None
    /\ (exists front,
          tier vip (orderQueue w') = front ++ tier vip (orderQueue w)
          /\ X ∈ front
          /\ Forall (fun Y => AssignedCookUser (w_heap w !!! Y) = Some id) front)
    /\ ((forall Y, Y <> X -> Y ∈ map snd (orders (w_store w)) ->
           AssignedCookUser (w_heap w !!! Y) = Some id ->
           is_active (w_heap w) Y = true ->
           isVIPOrder (w_heap w) Y <> vip) ->
        tier vip (orderQueue w') = X :: tier vip (orderQueue w)
        /\ (vip = true \/ vipOrders (orderQueue w') = [] ->
            (Dequeue (orderQueue w')).2 = served X)).
Proof.
  intros Hidx Hsz (u & Hu & Hc & Hd) (HX & Hassigned & Hstatus) vip.
  pose proof (RemoveCook_active w now id u Hidx Hu Hc Hd) as HR. cbv zeta in HR.
  set (os := filter (fun l => assigned_to (w_heap w) id l = true)
                    (map snd (orders (w_store w)))) in *.
  assert (NoDup os) as Hnd by (apply NoDup_filter, (indexed_NoDup _ Hidx)).
  assert (X ∈ os) as HXos.
  { apply list_elem_of_filter. split; [by apply assigned_to_spec | done]. }
  assert (is_active (w_heap w) X = true) as Hact.
  { unfold is_active. by rewrite Hstatus. }
  assert (X ∈ to_requeue (w_heap w) vip os) as HXfront.
  { apply list_elem_of_filter. split; [|done].
    rewrite Hact. subst vip. by destruct (isVIPOrder (w_heap w) X). }
  eexists. split; [exact HR|]. cbn [w_heap orderQueue].
  rewrite (requeue_heap_active os _ X Hnd HXos Hact).
  split; [reflexivity|]. split; [reflexivity|].
  assert (forall b, tier b
            (mkPQ (rev (to_requeue (w_heap w) true os) ++ vipOrders (orderQueue w))
               (rev (to_requeue (w_heap w) false os) ++ regularOrders (orderQueue w))
               (size (orderQueue w)
                + Z.of_nat (length (to_requeue (w_heap w) true os)
                            + length (to_requeue (w_heap w) false os))))
          = rev (to_requeue (w_heap w) b os) ++ tier b (orderQueue w)) as Htier.
  { by intros []. }
  rewrite Htier. split.
  - exists (rev (to_requeue (w_heap w) vip os)). split; [done|]. split.
    + by apply elem_of_rev.
    + apply Forall_forall. intros Y HY. apply (proj1 (elem_of_rev _ _)) in HY.
      apply list_elem_of_filter in HY as [_ HY].
      apply list_elem_of_filter in HY as [HY _]. by apply assigned_to_spec.
  - intros Hsole.
    assert (to_requeue (w_heap w) vip os = [X]) as Hone.
    { apply filter_singleton; try done.
      - rewrite Hact. subst vip. by destruct (isVIPOrder (w_heap w) X).
      - intros Y HY Hne HP.
        apply list_elem_of_filter in HY as [HYa HY].
        apply andb_prop in HP as [HP1 HP2]. apply Bool.eqb_prop in HP2.
        apply (Hsole Y Hne HY); [by apply assigned_to_spec | done | done]. }
    rewrite Hone. split; [done|]. intros Hhead.
    set (pq' := mkPQ _ _ _).
    assert (size_consistent pq') as Hsz'.
    { unfold size_consistent in *. subst pq'. simpl.
      rewrite !length_app, !length_rev. lia. }
    destruct vip eqn:Ev.
    + subst pq'. erewrite Dequeue_vip; [done | done |].
      simpl. rewrite Hone. reflexivity.
    + destruct Hhead as [?|Hhead]; [done|].
      subst pq'. erewrite Dequeue_regular; [done | done | exact Hhead |].
      simpl. rewrite Hone. reflexivity.
Qed.

End memory_RemoveCook.

(** ** The invariant of the service *)

Section service_invariant.
Import memory.
Implicit Types (w : World Store) (s : Store) (h : heap) (l : loc) (os : list loc).

(** The invariant survives any write to the orders that keeps their ID and
    role, any change of the users, and any new queue that is consistent,
    sorted and backed. *)
Lemma world_ok_update h0 s0 pq0 ws0 h s pq ws :
  store_indexed (mkWorld h0 s0 pq0 ws0) ->
  orders s = orders s0 ->
  (forall x, ID (h !!! x) = ID (h0 !!! x)) ->
  (forall x, isVIPOrder h x = isVIPOrder h0 x) ->
  size_consistent pq -> tiers_sorted h0 pq ->
  Forall (fun l => orders_lookup (ID (h0 !!! l)) (orders s0) = Some l)
         (vipOrders pq ++ regularOrders pq) ->
  world_ok (mkWorld h s pq ws).
Proof.
  intros [Hnd Hid] Hs HID Hrole Hsz [Hv Hr] Hb.
  unfold world_ok, store_indexed, queue_backed. simpl in *. rewrite Hs.
  split; [split; [done|]|split; [done|split; [split|]]].
  - eapply Forall_impl; [exact Hid|]. intros [k l] E. simpl in *. by rewrite HID.
  - eapply Forall_impl; [exact Hv|]. intros l E. simpl in *. by rewrite Hrole.
  - eapply Forall_impl; [exact Hr|]. intros l E. simpl in *. by rewrite Hrole.
  - eapply Forall_impl; [exact Hb|]. intros l E. simpl in *. by rewrite HID.
Qed.

Lemma bound_ID id l h x : ID (bound id l h !!! x) = ID (h !!! x).
Proof.
  unfold bound. destruct (decide (l = x)) as [->|Hne].
  - by rewrite lookup_total_insert_eq.
  - by rewrite lookup_total_insert_ne.
Qed.

Lemma bound_isVIPOrder id l h x : isVIPOrder (bound id l h) x = isVIPOrder h x.
Proof.
  unfold isVIPOrder, bound. destruct (decide (l = x)) as [->|Hne].
  - by rewrite lookup_total_insert_eq.
  - by rewrite lookup_total_insert_ne.
Qed.

Lemma requeue_heap_ID os h x : ID (requeue_heap os h !!! x) = ID (h !!! x).
Proof.
  revert h. induction os as [|l os IH]; intros h; [done|].
  cbn [requeue_heap foldl].
  fold (requeue_heap os (if is_active h l then requeued l h else h)).
  rewrite IH. destruct (is_active h l); [apply requeued_ID | done].
Qed.

Lemma requeue_heap_isVIPOrder os h x :
  isVIPOrder (requeue_heap os h) x = isVIPOrder h x.
Proof.
  revert h. induction os as [|l os IH]; intros h; [done|].
  cbn [requeue_heap foldl].
  fold (requeue_heap os (if is_active h l then requeued l h else h)).
  rewrite IH. destruct (is_active h l); [apply requeued_isVIPOrder | done].
Qed.

(** [AcceptOrder] always returns, and keeps the invariant. *)
Lemma AcceptOrder_keeps_invariant w id :
  world_ok w -> exists w' r, AcceptOrder id w = Returns w' r /\ world_ok w'.
Proof.
  intros Hok. pose proof Hok as (Hidx & Hsz & Hs & Hb).
  destruct (AcceptOrder_refuses w id) as (H1 & H2 & H3 & H4).
  destruct (users (w_store w) !! id) as [u|] eqn:Hu; [|by eauto].
  destruct (IsCook u) eqn:Hc; [|by eauto].
  destruct (IsDeleted u) eqn:Hd; [by eauto|].
  assert (active_cook w id) as Hcook by (by exists u).
  destruct (IsEmpty (orderQueue w)) eqn:He; [by eauto|].
  destruct (AcceptOrder_serves w id Hsz Hb Hcook He)
    as (l & pq' & HD & Hin & Hsub & HA).
  eexists _, _. split; [exact HA|].
  destruct w as [h s pq ws]. simpl in *.
  assert (pq' = (Dequeue pq).1) as -> by (by rewrite HD).
  eapply world_ok_update; try exact Hidx; try done.
  - apply bound_ID.
  - apply bound_isVIPOrder.
  - by apply Dequeue_size_consistent.
  - by apply Dequeue_tiers_sorted.
  - unfold queue_backed in Hb. simpl in Hb. rewrite Forall_forall in Hb.
    apply Forall_forall. intros x Hx. apply Hb. by apply Hsub.
Qed.

(** [RemoveCook] always returns, and keeps the invariant. *)
Lemma RemoveCook_keeps_invariant w now id :
  world_ok w -> exists w' r, RemoveCook now id w = Returns w' r /\ world_ok w'.
Proof.
  intros Hok. pose proof Hok as (Hidx & Hsz & Hs & Hb).
  destruct (users (w_store w) !! id) as [u|] eqn:Hu.
  2:{ exists w. eexists. split; [|done]. destruct w as [h s pq ws]. simpl in *.
      unfold RemoveCook. simpl. unfold UserRepository.GetByID. by rewrite Hu. }
  destruct (IsCook u) eqn:Hc.
  2:{ exists w. eexists. split; [|done]. destruct w as [h s pq ws]. simpl in *.
      unfold RemoveCook. simpl. unfold UserRepository.GetByID. by rewrite Hu, Hc. }
  destruct (IsDeleted u) eqn:Hd.
  { exists w. eexists. split; [|done]. destruct w as [h s pq ws]. simpl in *.
    unfold RemoveCook. simpl. unfold UserRepository.GetByID. by rewrite Hu, Hc, Hd. }
  pose proof (RemoveCook_active w now id u Hidx Hu Hc Hd) as HR. cbv zeta in HR.
  set (os := filter (fun l => assigned_to (w_heap w) id l = true)
                    (map snd (orders (w_store w)))) in *.
  eexists _, _. split; [exact HR|].
  destruct w as [h s pq ws]. simpl in *.
  assert (forall b x, x ∈ to_requeue h b os ->
            isVIPOrder h x = b
            /\ orders_lookup (ID (h !!! x)) (orders s) = Some x) as Hfront.
  { intros b x Hx. apply list_elem_of_filter in Hx as [HP Hx].
    apply andb_prop in HP as [_ HP]. apply Bool.eqb_prop in HP.
    split; [done|]. apply list_elem_of_filter in Hx as [_ Hx].
    apply (indexed_backed _ x Hidx Hx). }
  destruct Hs as [Hv Hr]. unfold queue_backed in Hb. simpl in Hb.
  apply Forall_app in Hb as [Hbv Hbr].
  eapply world_ok_update; try exact Hidx; try done.
  - apply requeue_heap_ID.
  - apply requeue_heap_isVIPOrder.
  - unfold size_consistent in *. simpl. rewrite !length_app, !length_rev. lia.
  - split; simpl; apply Forall_app; split; try done;
      apply Forall_forall; intros x Hx; apply (proj1 (elem_of_rev _ _)) in Hx;
      by apply Hfront in Hx as [? _].
  - simpl. rewrite !Forall_app. repeat split; try done;
      apply Forall_forall; intros x Hx; apply (proj1 (elem_of_rev _ _)) in Hx;
      by apply Hfront in Hx as [_ ?].
Qed.

End service_invariant.

(** ** Sample runs of the in-memory service *)

Section memory_samples.
Import memory.

Lemma sample_store_indexed (h : heap) pq ws :
  Forall (fun kl : Z * loc => ID (h !!! kl.2) = kl.1) (orders sample.memory_store) ->
  store_indexed (mkWorld h sample.memory_store pq ws).
Proof.
  intros Hid. split; [|exact Hid].
  apply (bool_decide_unpack _). vm_compute. reflexivity.
Qed.

Example memory_world_accept :
  AcceptOrder 7 sample.memory_world = Returns sample.serving_world (Some 2%positive, None).
Proof. vm_compute. reflexivity. Qed.

(** A cook that keeps accepting holds several orders at once. *)
Example busy_world_reached :
  match AcceptOrder 7 sample.vip_world with
  | Returns w1 r1 =>
      r1 = served 2%positive
      /\ AcceptOrder 7 w1 = Returns sample.busy_world (served 5%positive)
  | Panics => False
  end.
Proof. vm_compute. split; reflexivity. Qed.

End memory_samples.

Lemma AcceptOrder_contract_witness :
  exists l pq' h',
    Dequeue (orderQueue sample.memory_world) = (pq', served l)
    /\ AcceptOrder 7 sample.memory_world
       = Returns (mkWorld h' (w_store sample.memory_world) pq'
                    (workers sample.memory_world)) (Some l, None)
    /\ Status (h' !!! l) = OrderStatusServing
    /\ AssignedCookUser (h' !!! l) = Some 7
    /\ forall l', l' <> l -> h' !! l' = w_heap sample.memory_world !! l'.
Proof.
  assert (size_consistent (orderQueue sample.memory_world)) as Hsz
    by (vm_compute; reflexivity).
  assert (queue_backed sample.memory_world) as Hbacked
    by (unfold queue_backed; simpl; repeat constructor).
  apply (proj1 (proj2 (proj2 (proj2 (proj2
           (AcceptOrder_contract sample.memory_world 7 Hsz Hbacked)))))).
  - exists (sample.cook 7 None). repeat split.
  - reflexivity.
Defined.

Lemma RemoveCook_requeues_witness :
  exists w',
    RemoveCook 1700000000 7 sample.serving_world = Returns w' None
    /\ Status (w_heap w' !!! 2%positive) = OrderStatusPending
    /\ AssignedCookUser (w_heap w' !!! 2%positive) = None
    /\ vipOrders (orderQueue w') = [2%positive]
    /\ (Dequeue (orderQueue w')).2 = served 2%positive.
Proof.
  assert (store_indexed sample.serving_world) as Hidx.
  { apply sample_store_indexed. repeat constructor. }
  assert (size_consistent (orderQueue sample.serving_world)) as Hsz
    by (vm_compute; reflexivity).
  assert (active_cook sample.serving_world 7) as Hcook.
  { exists (sample.cook 7 None). repeat split. }
  assert (holds sample.serving_world 7 2%positive) as Hholds.
  { split; [|split; reflexivity]. apply (bool_decide_unpack _). vm_compute. reflexivity. }
  destruct (RemoveCook_requeues sample.serving_world 1700000000 7 2%positive
              Hidx Hsz Hcook Hholds) as (w' & HR & HS & HA & _ & Hsole).
  exists w'. split; [exact HR|]. split; [exact HS|]. split; [exact HA|].
  destruct Hsole as [Htier HD].
  - intros Y Hne HY HYa _. exfalso.
    change (Y ∈ [1%positive; 2%positive; 3%positive; 4%positive; 5%positive]) in HY.
    rewrite !elem_of_cons, elem_of_nil in HY.
    destruct HY as [->|[->|[->|[->|[->|[]]]]]]; try done;
      vm_compute in HYa; discriminate.
  - split; [exact Htier | apply HD; by left].
Defined.

(** C3 as stated fails: cook 7 serves the VIP orders 2 and 5; after its
    removal both are pending and queued, but order 5 stands before order 2,
    and [Dequeue] returns order 5, not order 2. *)
Lemma RemoveCook_second_order_not_next :
  holds sample.busy_world 7 2%positive
  /\ holds sample.busy_world 7 5%positive
  /\ match RemoveCook 1700000000 7 sample.busy_world with
     | Returns w' err =>
         err = None
         /\ Status (w_heap w' !!! 2%positive) = OrderStatusPending
         /\ vipOrders (orderQueue w') = [5%positive; 2%positive]
         /\ (Dequeue (orderQueue w')).2 = served 5%positive
         /\ (Dequeue (orderQueue w')).2 <> served 2%positive
     | Panics => False
     end.
Proof.
  split; [|split].
  - split; [|split; reflexivity]. apply (bool_decide_unpack _). vm_compute. reflexivity.
  - split; [|split; reflexivity]. apply (bool_decide_unpack _). vm_compute. reflexivity.
  - vm_compute. repeat split; try reflexivity. discriminate.
Qed.

(** * AcceptOrder when the binding cannot be persisted *)

Section persist_failure.
Context {S : Type} `{!UserRepository S} `{!OrderRepository S}.
Implicit Types (w : World S) (h : heap) (l : loc).

(** When [AssignCook] fails, the order goes back to the front of its tier
    and the error is returned. *)
Lemma AcceptOrder_assign_failure w id s1 pq1 l s2 h2 e :
  accepts w id s1 pq1 l ->
  AssignCook (ID (w_heap w !!! l)) id s1 (w_heap w) = ((s2, h2), Some e) ->
  AcceptOrder id w
  = Returns (mkWorld h2 s2 (EnqueueAtFront h2 (Some l) pq1).1 (workers w))
            (None, Some (ErrorfWrap "failed to assign cook" e)).
Proof.
  intros (cook & HG & Hc & Hd & HD) HA. unfold AcceptOrder.
  rewrite HG, Hc, Hd, HD. unfold served. cbn [negb]. rewrite HA.
  by destruct (EnqueueAtFront h2 (Some l) pq1).
Qed.

(** When [AssignCook] succeeds and [UpdateStatus] fails, the error is
    returned and the queue stays as [Dequeue] left it: the order is not put
    back. *)
Lemma AcceptOrder_status_failure w id s1 pq1 l s2 h2 s3 h3 e :
  accepts w id s1 pq1 l ->
  AssignCook (ID (w_heap w !!! l)) id s1 (w_heap w) = ((s2, h2), None) ->
  UpdateStatus (ID (h2 !!! l)) OrderStatusServing s2 h2 = ((s3, h3), Some e) ->
  AcceptOrder id w
  = Returns (mkWorld h3 s3 pq1 (workers w))
            (None, Some (ErrorfWrap "failed to update order status" e)).
Proof.
  intros (cook & HG & Hc & Hd & HD) HA HU. unfold AcceptOrder.
  rewrite HG, Hc, Hd, HD. unfold served. cbn [negb]. by rewrite HA, HU.
Qed.

End persist_failure.

(** Over the in-memory repositories the first step fails exactly when the
    order is unknown to the repository, and the queue is then restored as it
    was. *)
Lemma AcceptOrder_unknown_order_restores (w : World memory.Store) (id : Z) (l : loc) :
  size_consistent (orderQueue w) -> tiers_sorted (w_heap w) (orderQueue w) ->
  active_cook w id ->
  (Dequeue (orderQueue w)).2 = served l ->
  memory.orders_lookup (ID (w_heap w !!! l)) (memory.orders (w_store w)) = None ->
  AcceptOrder id w
  = Returns w (None, Some (ErrorfWrap "failed to assign cook"
                             (ErrorfInt "order not found" (ID (w_heap w !!! l))))).
Proof.
  destruct w as [h s [v r n] ws]. unfold active_cook. simpl.
  intros Hsz [Hv Hr] (u & Hu & Hc & Hd) HD Hnone. simpl in *.
  assert (exists pq1, Dequeue (mkPQ v r n) = (pq1, served l)
                      /\ (EnqueueAtFront h (Some l) pq1).1 = mkPQ v r n)
    as (pq1 & HD1 & Hback).
  { destruct v as [|x v].
    - destruct r as [|x r].
      + rewrite Dequeue_empty in HD by done. discriminate.
      + rewrite (Dequeue_regular _ x r) in * by done.
        injection HD as ->. eexists. split; [reflexivity|].
        unfold EnqueueAtFront. apply Forall_cons in Hr as [-> _]. simpl.
        f_equal. lia.
    - rewrite (Dequeue_vip _ x v) in * by done.
      injection HD as ->. eexists. split; [reflexivity|].
      unfold EnqueueAtFront. apply Forall_cons in Hv as [-> _]. simpl.
      f_equal. lia. }
  erewrite (AcceptOrder_assign_failure _ id s pq1 l s h).
  - by rewrite Hback.
  - exists u. simpl. unfold memory.UserRepository.GetByID. by rewrite Hu.
  - simpl. unfold memory.OrderRepository.AssignCook. by rewrite Hnone.
Qed.

(** C2 fails on the code.  Over the database, with the connection lost after
    [AssignCook] went through: [Dequeue] hands out order 2, [AcceptOrder]
    returns the error of [UpdateStatus], and order 2 is left out of the
    queue, still pending in the database and assigned to cook 7. *)
Theorem AcceptOrder_status_failure_drops_order :
  (Dequeue (orderQueue sample.postgres_world)).2 = served 2%positive
  /\ match AcceptOrder 7 sample.postgres_world with
     | Returns w' (order, err) =>
         order = None
         /\ err = Some (ErrorfWrap "failed to update order status"
                          (ErrorfWrap "failed to update status"
                             (Errorf "context canceled")))
         /\ orderQueue w' = mkPQ [] [1%positive; 3%positive] 2
         /\ postgres.order_table (w_store w') !! 2
            = Some (postgres.mkRow OrderStatusPending (Some 7) 200 None)
     | Panics => False
     end.
Proof. vm_compute. repeat split; reflexivity. Qed.

(** Over the database the binding is written to the row of the order, and
    the order that [AcceptOrder] returns, which [CreateOrder] had enqueued,
    is not touched: it still reads PENDING with no cook. *)
Example postgres_accept_binds_row :
  match AcceptOrder 7 sample.sound_postgres_world with
  | Returns w' r =>
      r = served 2%positive
      /\ postgres.order_table (w_store w') !! 2
         = Some (postgres.mkRow OrderStatusServing (Some 7) 200 None)
      /\ w_heap w' !!! 2%positive = sample.vip_order 2
  | Panics => False
  end.
Proof. vm_compute. repeat split; reflexivity. Qed.

(** * Further properties of the dispatch queue *)

Section queue_readers.
Implicit Types (h : heap) (pq : PriorityQueue) (l : loc) (ls : list loc).

(** X1. On a queue whose counter is consistent the read-only methods agree
    with [Dequeue] and with the contents: [Peek] returns what the next
    [Dequeue] returns, [IsEmpty] holds exactly when no order is queued, and
    when it does not hold the next [Dequeue] succeeds. *)
Theorem readers_agree (pq : PriorityQueue) :
  size_consistent pq ->
  Peek pq = (Dequeue pq).2
  /\ (IsEmpty pq = true <-> queued pq = [])
  /\ Size pq = Z.of_nat (length (queued pq))
  /\ (IsEmpty pq = false ->
      exists l rest, queued pq = l :: rest
                     /\ (Dequeue pq).2 = served l
                     /\ queued (Dequeue pq).1 = rest).
Proof.
  intros Hsz. unfold IsEmpty, Size, queued.
  pose proof Hsz as Hsz'. unfold size_consistent in Hsz'.
  destruct (vipOrders pq) as [|l rest] eqn:Ev.
  - destruct (regularOrders pq) as [|l rest] eqn:Er.
    + rewrite (Dequeue_empty pq), (Peek_empty pq) by done. simpl in *.
      rewrite Hsz'. split; [done|]. split; [done|]. split; [done|]. discriminate.
    + rewrite (Dequeue_regular pq l rest), (Peek_regular pq l rest) by done.
      simpl in *. split; [done|]. split.
      * split; [|discriminate]. intros E. apply Z.eqb_eq in E. lia.
      * split; [lia|]. intros _. by exists l, rest.
  - rewrite (Dequeue_vip pq l rest), (Peek_vip pq l rest) by done.
    simpl in *. split; [done|]. split.
    + split; [|discriminate]. intros E. apply Z.eqb_eq in E. lia.
    + split; [rewrite ?length_app; simpl; rewrite ?length_app; lia|].
      intros _. by exists l, (rest ++ regularOrders pq).
Qed.

Lemma readers_agree_witness :
  Peek sample.mixed_queue = (Dequeue sample.mixed_queue).2
  /\ (IsEmpty sample.mixed_queue = true <-> queued sample.mixed_queue = [])
  /\ Size sample.mixed_queue = Z.of_nat (length (queued sample.mixed_queue))
  /\ (IsEmpty sample.mixed_queue = false ->
      exists l rest, queued sample.mixed_queue = l :: rest
                     /\ (Dequeue sample.mixed_queue).2 = served l
                     /\ queued (Dequeue sample.mixed_queue).1 = rest).
Proof.
  apply (readers_agree sample.mixed_queue). vm_compute. reflexivity.
Defined.

(** X2. A consistent queue of [Size] n is emptied by exactly n calls of
    [Dequeue]: they all succeed, return the VIP orders and then the regular
    ones, each tier in queue order, and leave a queue on which [Dequeue]
    and [Peek] report [ErrEmptyQueue] and which equals a new queue. *)
Theorem drain_exact (pq : PriorityQueue) :
  size_consistent pq ->
  DequeueN (Z.to_nat (Size pq)) pq = (map served (queued pq), NewPriorityQueue)
  /\ Dequeue (DequeueN (Z.to_nat (Size pq)) pq).2
     = (NewPriorityQueue, (None, Some ErrEmptyQueue))
  /\ Peek (DequeueN (Z.to_nat (Size pq)) pq).2 = (None, Some ErrEmptyQueue).
Proof.
  destruct pq as [v r n]. unfold size_consistent, Size, queued. simpl. intros ->.
  rewrite Nat2Z.id. rewrite DequeueN_drain by done. done.
Qed.

Lemma drain_exact_witness :
  DequeueN (Z.to_nat (Size sample.mixed_queue)) sample.mixed_queue
  = (map served (queued sample.mixed_queue), NewPriorityQueue).
Proof.
  apply (drain_exact sample.mixed_queue). vm_compute. reflexivity.
Defined.

(** X3. A front insert is undone by the next [Dequeue]: when the order is a
    VIP order, or no VIP order is queued, [Dequeue] right after
    [EnqueueAtFront] returns that order and leaves the queue exactly as it
    was before the insert.  When the order is a regular one and a VIP order
    is queued, the VIP head is returned instead. *)
Theorem front_insert_undone (h : heap) (pq : PriorityQueue) (l : loc) :
  size_consistent pq ->
  (isVIPOrder h l = true \/ vipOrders pq = [] ->
     Dequeue (EnqueueAtFront h (Some l) pq).1 = (pq, served l))
  /\ (forall x rest, isVIPOrder h l = false -> vipOrders pq = x :: rest ->
     (Dequeue (EnqueueAtFront h (Some l) pq).1).2 = served x).
Proof.
  intros Hsz.
  pose proof (EnqueueAtFront_size_consistent h (Some l) pq Hsz) as Hsz'.
  destruct pq as [v r n]. unfold EnqueueAtFront in *.
  split.
  - intros Hcase. destruct (isVIPOrder h l) eqn:E; cbn [fst] in *.
    + rewrite (Dequeue_vip _ l v Hsz' eq_refl). cbn [size regularOrders].
      do 2 f_equal. lia.
    + destruct Hcase as [?|Hv]; [done|]. cbn [vipOrders] in Hv. subst v.
      rewrite (Dequeue_regular _ l r Hsz' eq_refl eq_refl). cbn [size].
      do 2 f_equal. lia.
  - intros x rest E Hv. cbn [vipOrders] in Hv. subst v. rewrite E in *. cbn [fst] in *.
    by rewrite (Dequeue_vip _ x rest Hsz' eq_refl).
Qed.

Lemma front_insert_undone_witness :
  Dequeue (EnqueueAtFront sample.orders_heap (Some 5%positive) sample.mixed_queue).1
  = (sample.mixed_queue, served 5%positive)
  /\ (Dequeue (EnqueueAtFront sample.orders_heap (Some 4%positive)
                 sample.mixed_queue).1).2 = served 2%positive.
Proof.
  assert (size_consistent sample.mixed_queue) as Hsz by (vm_compute; reflexivity).
  split.
  - apply (proj1 (front_insert_undone sample.orders_heap sample.mixed_queue
                    5%positive Hsz)).
    left. vm_compute. reflexivity.
  - apply (proj2 (front_insert_undone sample.orders_heap sample.mixed_queue
                    4%positive Hsz) 2%positive []); vm_compute; reflexivity.
Defined.

End queue_readers.

Section queue_runs.
Implicit Types (h : heap) (pq : PriorityQueue) (l : loc) (ls : list loc).

Lemma of_tier_app h b ls ls' :
  of_tier h b (ls ++ ls') = of_tier h b ls ++ of_tier h b ls'.
Proof. unfold of_tier. apply filter_app. Qed.

Lemma EnqueueAtFrontAll_spec h ls pq :
  EnqueueAtFrontAll h ls pq
  = mkPQ (rev (of_tier h true ls) ++ vipOrders pq)
         (rev (of_tier h false ls) ++ regularOrders pq)
         (size pq + Z.of_nat (length ls)).
Proof.
  revert pq. induction ls as [|l ls IH]; intros [v r n].
  - simpl. f_equal. lia.
  - cbn [EnqueueAtFrontAll]. rewrite IH, !of_tier_cons. unfold EnqueueAtFront.
    destruct (isVIPOrder h l); simpl; rewrite <- ?app_assoc; simpl; f_equal; lia.
Qed.

Lemma DequeueN_vip_prefix xs v r n :
  0 <= n ->
  DequeueN (length xs) (mkPQ (xs ++ v) r (n + Z.of_nat (length xs)))
  = (map served xs, mkPQ v r n).
Proof.
  intros Hn. induction xs as [|x xs IH].
  - simpl. do 2 f_equal. lia.
  - cbn [DequeueN length app]. unfold Dequeue. cbn [size vipOrders regularOrders].
    destruct (Z.eqb_spec (n + Z.of_nat (S (length xs))) 0) as [E|_]; [lia|].
    replace (n + Z.of_nat (S (length xs)) - 1) with (n + Z.of_nat (length xs)) by lia.
    by rewrite IH.
Qed.

(** X4. Front inserts are served last in, first out: after several
    [EnqueueAtFront] calls each tier holds the orders put at its front in
    the reverse order of the calls, before the orders it held; VIP orders
    put at the front one after the other are returned by the next calls of
    [Dequeue] latest first, and the queue is then exactly as it was. *)
Theorem front_inserts_lifo (h : heap) (pq : PriorityQueue) (ls : list loc) :
  size_consistent pq ->
  (forall vip, tier vip (EnqueueAtFrontAll h ls pq)
               = rev (of_tier h vip ls) ++ tier vip pq)
  /\ (Forall (fun l => isVIPOrder h l = true) ls ->
      DequeueN (length ls) (EnqueueAtFrontAll h ls pq) = (map served (rev ls), pq)).
Proof.
  intros Hsz. rewrite EnqueueAtFrontAll_spec. split.
  - by intros [].
  - intros Hall. unfold of_tier.
    rewrite (filter_all ls _ Hall).
    rewrite (filter_none ls (fun l => isVIPOrder h l = false)).
    2:{ eapply Forall_impl; [exact Hall|]. intros l E. simpl in E. congruence. }
    simpl. destruct pq as [v r n]. unfold size_consistent in Hsz. simpl in *.
    rewrite <- (length_rev ls).
    rewrite DequeueN_vip_prefix by lia. done.
Qed.

Lemma front_inserts_lifo_witness :
  DequeueN 2 (EnqueueAtFrontAll sample.orders_heap [2%positive; 5%positive]
                sample.mixed_queue)
  = (map served (rev [2%positive; 5%positive]), sample.mixed_queue).
Proof.
  assert (size_consistent sample.mixed_queue) as Hsz by (vm_compute; reflexivity).
  apply (proj2 (front_inserts_lifo sample.orders_heap sample.mixed_queue
                  [2%positive; 5%positive] Hsz)).
  repeat constructor.
Defined.

(** X5. The queue neither loses nor duplicates an order: over any run of
    operations on a consistent queue, the orders returned by [Dequeue]
    together with the orders still queued are, up to order, the orders
    queued at the start together with the orders accepted by [Enqueue] and
    [EnqueueAtFront]. *)
Theorem queue_conserves_orders (h : heap) (os : list op) (pq : PriorityQueue) :
  size_consistent pq ->
  returned h os pq ++ queued (run_ops h os pq) ≡ₚ queued pq ++ admitted os.
Proof.
  revert pq. induction os as [|o os IH]; intros pq Hsz.
  - simpl. by rewrite app_nil_r.
  - pose proof (IH _ (run_op_size_consistent h o pq Hsz)) as IH'.
    destruct o as [[l|]|[l|]| | | |]; cbn [returned admitted run_ops] in *;
      try exact IH'.
    + rewrite IH'. cbn [run_op]. unfold Enqueue, queued.
      destruct (isVIPOrder h l); simpl; rewrite <- !app_assoc; simpl;
        rewrite <- !Permutation_middle; done.
    + rewrite IH'. cbn [run_op]. unfold EnqueueAtFront, queued.
      destruct (isVIPOrder h l); simpl; rewrite <- !app_assoc; simpl;
        rewrite <- !Permutation_middle; done.
    + cbn [run_op] in *. unfold queued in *.
      destruct (vipOrders pq) as [|x rest] eqn:Ev.
      * destruct (regularOrders pq) as [|x rest] eqn:Er.
        -- rewrite (Dequeue_empty pq) in * by done. simpl in *.
           by rewrite Ev, Er in IH'.
        -- rewrite (Dequeue_regular pq x rest) in * by done. simpl in *.
           by rewrite IH'.
      * rewrite (Dequeue_vip pq x rest) in * by done. simpl in *.
        by rewrite IH'.
Qed.

Lemma queue_conserves_orders_witness :
  returned sample.orders_heap
    [OpDequeue; OpEnqueueAtFront (Some 4%positive); OpEnqueue (Some 5%positive); OpDequeue]
    sample.mixed_queue
  ++ queued (run_ops sample.orders_heap
               [OpDequeue; OpEnqueueAtFront (Some 4%positive);
                OpEnqueue (Some 5%positive); OpDequeue] sample.mixed_queue)
  ≡ₚ queued sample.mixed_queue
     ++ admitted [OpDequeue; OpEnqueueAtFront (Some 4%positive);
                  OpEnqueue (Some 5%positive); OpDequeue].
Proof.
  apply (queue_conserves_orders sample.orders_heap _ sample.mixed_queue).
  vm_compute. reflexivity.
Defined.

Lemma run_ops_tiers_sorted h os pq :
  tiers_sorted h pq -> tiers_sorted h (run_ops h os pq).
Proof.
  revert pq. induction os as [|o os IH]; intros pq Hs; [done|].
  simpl. apply IH. by apply run_op_tiers_sorted.
Qed.

(** X6. The two slices stay sorted by tier: after any run of operations on a
    new queue, or on any queue that is sorted, every order in [vipOrders] is
    an order of a VIP customer and no order in [regularOrders] is, so no
    order is queued in both. *)
Theorem tiers_stay_sorted (h : heap) (os : list op) :
  tiers_sorted h (run_ops h os NewPriorityQueue)
  /\ (forall pq, tiers_sorted h pq ->
        tiers_sorted h (run_ops h os pq)
        /\ forall l, l ∈ vipOrders (run_ops h os pq) ->
                     l ∉ regularOrders (run_ops h os pq)).
Proof.
  split.
  - apply run_ops_tiers_sorted. split; constructor.
  - intros pq Hs. pose proof (run_ops_tiers_sorted h os pq Hs) as [Hv Hr].
    split; [done|]. intros l Hl Hl'.
    rewrite Forall_forall in Hv, Hr. specialize (Hv l Hl). specialize (Hr l Hl').
    congruence.
Qed.

Lemma tiers_stay_sorted_witness :
  tiers_sorted sample.orders_heap
    (run_ops sample.orders_heap [OpEnqueueAtFront (Some 5%positive); OpDequeue]
       sample.mixed_queue).
Proof.
  apply (proj2 (tiers_stay_sorted sample.orders_heap
                  [OpEnqueueAtFront (Some 5%positive); OpDequeue]) sample.mixed_queue).
  split; repeat constructor.
Defined.

End queue_runs.

(** * Properties of the kiosk over the in-memory repositories *)

(** ** The cook service on the full state *)

Section kiosk_simulation.
Import memory.
Implicit Types (w : World Repositories) (r : Repositories).

Lemma review_view w : review (w_store w) (view w) = w.
Proof. destruct w as [h [s a b c d e] pq ws]. reflexivity. Qed.

Lemma requeue_orders_review os r h pq :
  requeue_orders os r h pq
  = let '(s, h', pq') := requeue_orders os (store r) h pq in (with_store s r, h', pq').
Proof.
  revert r h pq. induction os as [|l os IH]; intros r h pq; simpl.
  - by destruct r.
  - destruct (is_active_status (Status (h !!! l))); [|apply IH].
    unfold on_store_heap, OrderRepository.UpdateStatus, OrderRepository.UnassignCook.
    destruct (orders_lookup (ID (h !!! l)) (orders (store r))) as [o|]; simpl.
    + match goal with
      | |- context [orders_lookup ?k ?m] => destruct (orders_lookup k m) as [o'|]
      end; simpl.
      * match goal with
        | |- context [isVIPOrder ?a ?b] => destruct (isVIPOrder a b)
        end; rewrite IH; simpl; by destruct r as [[]].
      * rewrite IH. simpl. by destruct r as [[]].
    + rewrite IH. simpl. by destruct r as [[]].
Qed.

Lemma AcceptOrder_review id w :
  AcceptOrder id w = review_outcome (w_store w) (AcceptOrder id (view w)).
Proof.
  destruct w as [h r pq ws]. unfold AcceptOrder, view. simpl.
  unfold on_store, UserRepository.GetByID. simpl.
  destruct (users (store r) !! id) as [u|]; simpl; [|by destruct r].
  destruct (negb (IsCook u)); simpl; [by destruct r|].
  destruct (IsDeleted u); simpl; [by destruct r|].
  destruct (Dequeue pq) as [pq1 [[l|] [e|]]]; simpl;
    try (destruct e; by destruct r); try done.
  - unfold on_store_heap, OrderRepository.AssignCook, OrderRepository.UpdateStatus. simpl.
    destruct (orders_lookup (ID (h !!! l)) (orders (store r))) as [o|]; simpl.
    + destruct (orders_lookup _ (orders (store r))) as [o'|]; simpl; by destruct r.
    + destruct (isVIPOrder h l); by destruct r.
Qed.
Lemma RemoveCook_review now id w :
  RemoveCook now id w = review_outcome (w_store w) (RemoveCook now id (view w)).
Proof.
  destruct w as [h r pq ws]. unfold RemoveCook, view. simpl.
  unfold on_store, UserRepository.GetByID. simpl.
  destruct (users (store r) !! id) as [u|] eqn:Hu; simpl; [|by destruct r].
  destruct (negb (IsCook u)); simpl; [by destruct r|].
  destruct (IsDeleted u); simpl; [by destruct r|].
  unfold on_store_heap, OrderRepository.GetByCookID. simpl.
  rewrite requeue_orders_review. simpl.
  destruct (requeue_orders _ (store r) h pq) as [[s3 h3] pq3]. simpl.
  unfold UserRepository.SoftDelete.
  destruct (users s3 !! id); simpl; by destruct r.
Qed.

Lemma processOrder_review elapsed orderID cookID w :
  processOrder elapsed orderID cookID w
  = review (w_store w) (processOrder elapsed orderID cookID (view w)).
Proof.
  destruct w as [h r pq ws]. unfold processOrder, view. simpl.
  destruct elapsed; [|by destruct r].
  unfold on_store_heap, OrderRepository.UpdateStatus.
  destruct (orders_lookup orderID (orders (store r))); simpl; by destruct r.
Qed.

End kiosk_simulation.

Section kiosk_invariant.
Import memory.
Implicit Types (w : World Repositories) (r : Repositories) (h : heap).

Lemma kiosk_ok_step w h' r' pq' ws' :
  kiosk_ok w ->
  orders (store r') = orders (store (w_store w)) ->
  order_nextID r' = order_nextID (w_store w) ->
  users_indexed (mkWorld h' r' pq' ws') ->
  (forall id u, users (store (w_store w)) !! id = Some u ->
     exists u', users (store r') !! id = Some u'
                /\ User_Name u' = User_Name u /\ User_Role u' = User_Role u) ->
  (forall x : loc, is_Some (w_heap w !! x) -> is_Some (h' !! x)) ->
  (forall x : loc, ID (h' !!! x) = ID (w_heap w !!! x)
             /\ OrderedBy (h' !!! x) = OrderedBy (w_heap w !!! x)
             /\ CustomerName (h' !!! x) = CustomerName (w_heap w !!! x)
             /\ CustomerRole (h' !!! x) = CustomerRole (w_heap w !!! x)
             /\ DeletedAt (h' !!! x) = DeletedAt (w_heap w !!! x)) ->
  (forall x : loc, Status (h' !!! x) = Status (w_heap w !!! x)
             \/ Status (h' !!! x)
                ∈ [OrderStatusPending; OrderStatusServing; OrderStatusComplete]) ->
  size_consistent pq' -> tiers_sorted (w_heap w) pq' ->
  Forall (fun l => orders_lookup (ID (w_heap w !!! l)) (orders (store (w_store w)))
                   = Some l) (queued pq') ->
  NoDup (queued pq') ->
  Forall (fun l => AssignedCookUser (h' !!! l) = None) (queued pq') ->
  kiosk_ok (mkWorld h' r' pq' ws').
Proof.
  intros (Hok & Hal & Hui & Hqf & Hcs & Hst) Ho Hn Hui' Hus Hdom Hf Hstat
         Hsz Hts Hb Hnd Hun.
  destruct w as [h r pq ws]. simpl in *.
  split; [|split; [|split; [done|split; [done|split]]]].
  - destruct Hok as (Hidx & _). unfold view. simpl.
    eapply (world_ok_update h (store r) pq ws); try done.
    + intros x. apply Hf.
    + intros x. destruct (Hf x) as (_ & _ & _ & Hr & _). unfold isVIPOrder. by rewrite Hr.
  - unfold orders_allocated in *. simpl in *. rewrite Ho, Hn.
    eapply Forall_impl; [exact Hal|]. intros [k l] [? ?]. simpl in *. auto.
  - unfold customers_synced in *. simpl in *. rewrite Ho.
    eapply Forall_impl; [exact Hcs|]. intros [k l] (u & Hu & Hna & Hro). simpl in *.
    destruct (Hf l) as (_ & -> & -> & -> & _).
    destruct (Hus _ _ Hu) as (u' & Hu' & Hn' & Hr').
    exists u'. by rewrite Hn', Hr'.
  - unfold statuses_known in *. simpl in *. rewrite Ho.
    eapply Forall_impl; [exact Hst|]. intros [k l] [Hs Hd]. simpl in *.
    destruct (Hf l) as (_ & _ & _ & _ & ->). split; [|done].
    destruct (Hstat l) as [->|?]; done.
Qed.

End kiosk_invariant.

Section kiosk_calls.
Import memory.
Implicit Types (w : World Repositories) (r : Repositories) (h : heap) (l x : loc).

Lemma Dequeue_queued pq :
  size_consistent pq -> IsEmpty pq = false ->
  exists l pq', Dequeue pq = (pq', served l) /\ queued pq = l :: queued pq'.
Proof.
  intros Hsz He. unfold IsEmpty in He. apply Z.eqb_neq in He.
  destruct (vipOrders pq) as [|v vs] eqn:Ev.
  - destruct (regularOrders pq) as [|g gs] eqn:Eg.
    + unfold size_consistent in Hsz. rewrite Ev, Eg in Hsz. simpl in Hsz. lia.
    + eexists _, _. split; [by apply Dequeue_regular|].
      unfold queued. by rewrite Ev, Eg.
  - eexists _, _. split; [by apply (Dequeue_vip _ v vs)|].
    unfold queued. by rewrite Ev.
Qed.

(** A write to one order that keeps what identifies it. *)
Lemma write_keeps h l (o : Order) x :
  ID o = ID (h !!! l) -> OrderedBy o = OrderedBy (h !!! l) ->
  CustomerName o = CustomerName (h !!! l) ->
  CustomerRole o = CustomerRole (h !!! l) ->
  DeletedAt o = DeletedAt (h !!! l) ->
  ID (<[l := o]> h !!! x) = ID (h !!! x)
  /\ OrderedBy (<[l := o]> h !!! x) = OrderedBy (h !!! x)
  /\ CustomerName (<[l := o]> h !!! x) = CustomerName (h !!! x)
  /\ CustomerRole (<[l := o]> h !!! x) = CustomerRole (h !!! x)
  /\ DeletedAt (<[l := o]> h !!! x) = DeletedAt (h !!! x).
Proof.
  intros. destruct (decide (l = x)) as [->|Hne].
  - by rewrite lookup_total_insert_eq.
  - by rewrite lookup_total_insert_ne.
Qed.

Lemma write_allocated h l (o : Order) x :
  is_Some (h !! x) -> is_Some (<[l := o]> h !! x).
Proof. intros. apply lookup_insert_is_Some'. by right. Qed.

Lemma write_status h l (o : Order) x :
  Status o ∈ [OrderStatusPending; OrderStatusServing; OrderStatusComplete] ->
  Status (<[l := o]> h !!! x) = Status (h !!! x)
  \/ Status (<[l := o]> h !!! x)
     ∈ [OrderStatusPending; OrderStatusServing; OrderStatusComplete].
Proof.
  intros. destruct (decide (l = x)) as [->|Hne].
  - right. by rewrite lookup_total_insert_eq.
  - left. by rewrite lookup_total_insert_ne.
Qed.

Lemma AcceptOrder_kiosk_ok w id :
  kiosk_ok w -> exists w' a, AcceptOrder id w = Returns w' a /\ kiosk_ok w'.
Proof.
  intros Hok. rewrite AcceptOrder_review.
  pose proof Hok as ((Hidx & Hsz & Hs & Hb) & Hal & Hui & [Hnd Hun] & Hcs & Hst).
  destruct (AcceptOrder_refuses (view w) id) as (H1 & H2 & H3 & H4).
  destruct (users (w_store (view w)) !! id) as [u|] eqn:Hu.
  2:{ rewrite H1 by done. simpl. rewrite review_view. eauto. }
  destruct (IsCook u) eqn:Hc.
  2:{ rewrite (H2 u) by done. simpl. rewrite review_view. eauto. }
  destruct (IsDeleted u) eqn:Hd.
  { rewrite (H3 u) by done. simpl. rewrite review_view. eauto. }
  assert (active_cook (view w) id) as Hcook by (by exists u).
  destruct (IsEmpty (orderQueue (view w))) eqn:He.
  { rewrite H4 by done. simpl. rewrite review_view. eauto. }
  destruct (AcceptOrder_serves (view w) id Hsz Hb Hcook He)
    as (l & pq' & HD & Hin & Hsub & HA).
  rewrite HA. simpl. eexists _, _. split; [done|].
  destruct (Dequeue_queued _ Hsz He) as (l2 & pq2 & HD2 & Hq).
  rewrite HD in HD2. injection HD2 as <- <-.
  unfold review. simpl. unfold queued in *. simpl in Hq. rewrite Hq in Hnd, Hun.
  apply NoDup_cons in Hnd as [Hl Hnd]. apply Forall_cons in Hun as [_ Hun].
  assert (pq' = (Dequeue (orderQueue w)).1) as Epq by (simpl in HD; by rewrite HD).
  apply (kiosk_ok_step w); [done|done|done|exact Hui|intros i0 u0 Hu0; by exists u0|..|done|].
  - intros x. by apply write_allocated.
  - intros x. by apply write_keeps.
  - intros x. apply write_status. simpl. by repeat constructor.
  - rewrite Epq. by apply Dequeue_size_consistent.
  - rewrite Epq. by apply Dequeue_tiers_sorted.
  - unfold queue_backed in Hb. simpl in Hb. rewrite Forall_forall in Hb.
    apply Forall_forall. intros x Hx. apply Hb. by apply Hsub.
  - apply Forall_forall. intros x Hx. rewrite Forall_forall in Hun.
    unfold bound. rewrite lookup_total_insert_ne; [by apply Hun|].
    intros ->. done.
Qed.

Lemma processOrder_kiosk_ok elapsed orderID cookID w :
  kiosk_ok w -> kiosk_ok (processOrder elapsed orderID cookID w).
Proof.
  intros Hok. rewrite processOrder_review.
  pose proof Hok as ((Hidx & Hsz & Hs & Hb) & Hal & Hui & [Hnd Hun] & Hcs & Hst).
  unfold processOrder. destruct elapsed; [|by rewrite review_view].
  simpl. unfold OrderRepository.UpdateStatus.
  destruct (orders_lookup orderID (orders (store (w_store w)))) as [l|]; simpl;
    unfold review; simpl;
    (apply (kiosk_ok_step w); [done|done|done|exact Hui|intros i0 u0 Hu0; by exists u0|..|done|done|done|done|];
     try (intros x; by auto)).
  - intros x. by apply write_allocated.
  - intros x. by apply write_keeps.
  - intros x. apply write_status. simpl. by repeat constructor.
  - eapply Forall_impl; [exact Hun|]. intros x Hx. simpl in *.
    destruct (decide (l = x)) as [->|Hne].
    + by rewrite lookup_total_insert_eq.
    + by rewrite lookup_total_insert_ne.
  - done.
Qed.

Lemma RemoveCook_refuses (w : World Store) now id :
  (users (w_store w) !! id = None ->
     RemoveCook now id w
     = Returns w (Some (ErrorfWrap "cook not found" (ErrorfInt "user not found" id))))
  /\ (forall u, users (w_store w) !! id = Some u -> IsCook u = false ->
     RemoveCook now id w = Returns w (Some (Errorf "user is not a cook")))
  /\ (forall u, users (w_store w) !! id = Some u -> IsCook u = true ->
     IsDeleted u = true ->
     RemoveCook now id w = Returns w (Some (Errorf "cook is already deleted"))).
Proof.
  destruct w as [h s pq ws]. simpl. unfold RemoveCook.
  cbn [GetByID memory_UserRepository w_store w_heap orderQueue workers].
  unfold UserRepository.GetByID.
  split; [|split].
  - intros ->. reflexivity.
  - intros u -> Hc. by rewrite Hc.
  - intros u -> Hc Hd. by rewrite Hc, Hd.
Qed.

Lemma requeue_heap_cons l os h :
  requeue_heap (l :: os) h
  = requeue_heap os (if is_active h l then requeued l h else h).
Proof. reflexivity. Qed.

Lemma requeue_heap_keeps os h x :
  ID (requeue_heap os h !!! x) = ID (h !!! x)
  /\ OrderedBy (requeue_heap os h !!! x) = OrderedBy (h !!! x)
  /\ CustomerName (requeue_heap os h !!! x) = CustomerName (h !!! x)
  /\ CustomerRole (requeue_heap os h !!! x) = CustomerRole (h !!! x)
  /\ DeletedAt (requeue_heap os h !!! x) = DeletedAt (h !!! x).
Proof.
  revert h. induction os as [|l os IH]; intros h; [done|].
  rewrite requeue_heap_cons.
  destruct (IH (if is_active h l then requeued l h else h)) as (-> & -> & -> & -> & ->).
  destruct (is_active h l); [|done]. by apply write_keeps.
Qed.

Lemma requeue_heap_allocated os h x :
  is_Some (h !! x) -> is_Some (requeue_heap os h !! x).
Proof.
  revert h. induction os as [|l os IH]; intros h Hx; [done|].
  rewrite requeue_heap_cons. apply IH.
  destruct (is_active h l); [|done]. by apply write_allocated.
Qed.

Lemma requeue_heap_status os h x :
  Status (requeue_heap os h !!! x) = Status (h !!! x)
  \/ Status (requeue_heap os h !!! x)
     ∈ [OrderStatusPending; OrderStatusServing; OrderStatusComplete].
Proof.
  revert h. induction os as [|l os IH]; intros h; [by left|].
  rewrite requeue_heap_cons.
  destruct (IH (if is_active h l then requeued l h else h)) as [->|?]; [|by right].
  destruct (is_active h l); [|by left].
  apply write_status. simpl. by repeat constructor.
Qed.

Lemma RemoveCook_kiosk_ok w now id :
  kiosk_ok w -> exists w' a, RemoveCook now id w = Returns w' a /\ kiosk_ok w'.
Proof.
  intros Hok. rewrite RemoveCook_review.
  pose proof Hok as ((Hidx & Hsz & Hs & Hb) & Hal & Hui & [Hnd Hun] & Hcs & Hst).
  destruct (RemoveCook_refuses (view w) now id) as (H1 & H2 & H3).
  destruct (users (w_store (view w)) !! id) as [u|] eqn:Hu.
  2:{ rewrite H1 by done. simpl. rewrite review_view. eauto. }
  destruct (IsCook u) eqn:Hc.
  2:{ rewrite (H2 u) by done. simpl. rewrite review_view. eauto. }
  destruct (IsDeleted u) eqn:Hd.
  { rewrite (H3 u) by done. simpl. rewrite review_view. eauto. }
  clear H1 H2 H3.
  pose proof (RemoveCook_active (view w) now id u Hidx Hu Hc Hd) as HR. cbv zeta in HR.
  rewrite HR. simpl. eexists _, _. split; [done|].
  set (os := filter (fun l => assigned_to (w_heap w) id l = true)
                    (map snd (orders (store (w_store w))))) in *.
  unfold review. simpl.
  assert (NoDup os) as Hos.
  { apply NoDup_filter. by apply (indexed_NoDup (view w)). }
  assert (forall b x, x ∈ to_requeue (w_heap w) b os ->
            isVIPOrder (w_heap w) x = b /\ x ∈ os /\ is_active (w_heap w) x = true
            /\ orders_lookup (ID (w_heap w !!! x)) (orders (store (w_store w))) = Some x)
    as Hfront.
  { intros b x Hx. apply list_elem_of_filter in Hx as [HP Hx].
    apply andb_prop in HP as [Ha HP]. apply Bool.eqb_prop in HP.
    repeat split; try done. apply list_elem_of_filter in Hx as [_ Hx].
    apply (indexed_backed (view w) x Hidx Hx). }
  assert (forall x, x ∈ queued (orderQueue w) -> x ∉ os) as Hfree.
  { intros x Hx Hos'. apply list_elem_of_filter in Hos' as [Ha _].
    apply assigned_to_spec in Ha. rewrite Forall_forall in Hun.
    rewrite (Hun x Hx) in Ha. done. }
  destruct Hs as [Hv Hr]. unfold queue_backed in Hb. simpl in Hb.
  pose proof Hb as Hb'. apply Forall_app in Hb' as [Hbv Hbr].
  apply (kiosk_ok_step w); [done|done|done|..].
  - intros i0 u0. simpl. intros Hi0.
    destruct (decide (i0 = id)) as [->|Hne].
    + rewrite lookup_insert_eq in Hi0. injection Hi0 as <-. simpl.
      by apply (Hui id u).
    + rewrite lookup_insert_ne in Hi0 by done. by apply Hui.
  - intros i0 u0 Hi0. simpl. destruct (decide (i0 = id)) as [->|Hne].
    + rewrite lookup_insert_eq. simpl in Hu. rewrite Hu in Hi0. injection Hi0 as <-.
      by eexists.
    + rewrite lookup_insert_ne by done. by exists u0.
  - intros x. apply requeue_heap_allocated.
  - intros x. apply requeue_heap_keeps.
  - intros x. apply requeue_heap_status.
  - unfold size_consistent in *. simpl in *. rewrite !length_app, !length_rev. lia.
  - split; simpl; apply Forall_app; split; try done;
      apply Forall_forall; intros x Hx; apply (proj1 (elem_of_rev _ _)) in Hx;
      by apply Hfront in Hx as [? _].
  - unfold queued. simpl. rewrite !Forall_app. repeat split; try done;
      apply Forall_forall; intros x Hx; apply (proj1 (elem_of_rev _ _)) in Hx;
      by apply Hfront in Hx as (_ & _ & _ & ?).
  - unfold queued in *. simpl.
    apply NoDup_app in Hnd as (Hndv & Hdis & Hndr).
    apply NoDup_app. split; [|split].
    + apply NoDup_app. split; [|split; [|done]].
      * apply NoDup_ListNoDup, NoDup_rev, NoDup_ListNoDup. by apply NoDup_filter.
      * intros x Hx Hx'. apply (proj1 (elem_of_rev _ _)) in Hx.
        apply Hfront in Hx as (_ & Hx & _). apply (Hfree x); [|done].
        apply elem_of_app. by left.
    + intros x Hx Hx'. apply elem_of_app in Hx as [Hx|Hx];
        apply elem_of_app in Hx' as [Hx'|Hx'].
      * apply (proj1 (elem_of_rev _ _)) in Hx, Hx'.
        apply Hfront in Hx as (Hx & _). apply Hfront in Hx' as (Hx' & _). congruence.
      * apply (proj1 (elem_of_rev _ _)) in Hx.
        apply Hfront in Hx as (_ & Hx & _). apply (Hfree x); [|done].
        apply elem_of_app. by right.
      * apply (proj1 (elem_of_rev _ _)) in Hx'.
        apply Hfront in Hx' as (_ & Hx' & _). apply (Hfree x); [|done].
        apply elem_of_app. by left.
      * by apply (Hdis x).
    + apply NoDup_app. split; [|split; [|done]].
      * apply NoDup_ListNoDup, NoDup_rev, NoDup_ListNoDup. by apply NoDup_filter.
      * intros x Hx Hx'. apply (proj1 (elem_of_rev _ _)) in Hx.
        apply Hfront in Hx as (_ & Hx & _). apply (Hfree x); [|done].
        apply elem_of_app. by right.
  - assert (forall b x, x ∈ rev (to_requeue (w_heap w) b os) ->
              AssignedCookUser (requeue_heap os (w_heap w) !!! x) = None) as Hnew.
    { intros b x Hx. apply (proj1 (elem_of_rev _ _)) in Hx.
      apply Hfront in Hx as (_ & Hx & Ha & _).
      by rewrite (requeue_heap_active os (w_heap w) x Hos Hx Ha). }
    assert (forall x, x ∈ queued (orderQueue w) ->
              AssignedCookUser (requeue_heap os (w_heap w) !!! x) = None) as Hold.
    { intros x Hx. rewrite lookup_total_alt, (requeue_heap_other os _ x), <- lookup_total_alt.
      - rewrite Forall_forall in Hun. by apply Hun.
      - by apply Hfree. }
    unfold queued in *. simpl. rewrite !Forall_app. repeat split;
      apply Forall_forall; intros x Hx; eauto.
    + apply Hold, elem_of_app. by left.
    + apply Hold, elem_of_app. by right.
Qed.

(** A call that leaves the heap, the orders and the queue alone. *)
Lemma kiosk_ok_users w r' ws' :
  kiosk_ok w ->
  orders (store r') = orders (store (w_store w)) ->
  order_nextID r' = order_nextID (w_store w) ->
  users_indexed (mkWorld (w_heap w) r' (orderQueue w) ws') ->
  (forall id u, users (store (w_store w)) !! id = Some u ->
     exists u', users (store r') !! id = Some u'
                /\ User_Name u' = User_Name u /\ User_Role u' = User_Role u) ->
  kiosk_ok (mkWorld (w_heap w) r' (orderQueue w) ws').
Proof.
  intros Hok Ho Hn Hui' Hus.
  pose proof Hok as ((Hidx & Hsz & Hs & Hb) & Hal & Hui & [Hnd Hun] & Hcs & Hst).
  apply (kiosk_ok_step w); try done; intros x; auto.
Qed.

Lemma Create_users_indexed w user :
  users_indexed w ->
  users_indexed (mkWorld (w_heap w) (UserRepository.Create user (w_store w)).1
                         (orderQueue w) (workers w))
  /\ (forall id u, users (store (w_store w)) !! id = Some u ->
       users (store (UserRepository.Create user (w_store w)).1) !! id = Some u).
Proof.
  intros Hui. unfold users_indexed, UserRepository.Create. simpl. split.
  - intros id u Hu. destruct (decide (id = user_nextID (w_store w))) as [->|Hne].
    + rewrite lookup_insert_eq in Hu. injection Hu as <-. simpl. lia.
    + rewrite lookup_insert_ne in Hu by done. apply Hui in Hu. lia.
  - intros id u Hu. rewrite lookup_insert_ne; [done|].
    apply Hui in Hu. lia.
Qed.

Lemma CreateUser_kiosk_ok w user :
  kiosk_ok w ->
  kiosk_ok (mkWorld (w_heap w) (UserRepository.Create user (w_store w)).1
                    (orderQueue w) (workers w)).
Proof.
  intros Hok. pose proof Hok as (_ & _ & Hui & _).
  destruct (Create_users_indexed w user Hui) as [H1 H2].
  apply kiosk_ok_users; try done. intros id u Hu. exists u. auto.
Qed.

Lemma CreateCook_kiosk_ok w name :
  kiosk_ok w -> exists w' a, CreateCook name w = Returns w' a /\ kiosk_ok w'.
Proof.
  intros Hok. unfold CreateCook. simpl. eexists _, _. split; [done|].
  by apply (CreateUser_kiosk_ok w (mkUser 0 name RoleCook None)).
Qed.

Lemma CreateFood_kiosk_ok w food :
  kiosk_ok w ->
  kiosk_ok (mkWorld (w_heap w) (FoodRepository.Create food (w_store w)).1
                    (orderQueue w) (workers w)).
Proof.
  intros Hok. pose proof Hok as (_ & _ & Hui & _).
  apply kiosk_ok_users; try done. intros id u Hu. exists u. auto.
Qed.

Lemma ReinstateCook_kiosk_ok w id :
  kiosk_ok w -> exists w' a, ReinstateCook id w = Returns w' a /\ kiosk_ok w'.
Proof.
  intros Hok. pose proof Hok as (_ & _ & Hui & _).
  unfold ReinstateCook. simpl. unfold on_store, UserRepository.GetByID.
  destruct (users (store (w_store w)) !! id) as [u|] eqn:Hu; simpl.
  2:{ eexists _, _. split; [done|]. apply kiosk_ok_users; try done.
      intros i0 u0 ?. by exists u0. }
  destruct (negb (IsCook u)); simpl.
  { eexists _, _. split; [done|]. apply kiosk_ok_users; try done.
    intros i0 u0 ?. by exists u0. }
  destruct (negb (IsDeleted u)); simpl.
  { eexists _, _. split; [done|]. apply kiosk_ok_users; try done.
    intros i0 u0 ?. by exists u0. }
  unfold UserRepository.Reinstate. simpl. rewrite Hu. simpl.
  eexists _, _. split; [done|]. apply kiosk_ok_users; try done.
  - intros i0 u0. simpl. intros Hi0. destruct (decide (i0 = id)) as [->|Hne].
    + rewrite lookup_insert_eq in Hi0. injection Hi0 as <-. simpl. by apply Hui.
    + rewrite lookup_insert_ne in Hi0 by done. by apply Hui.
  - intros i0 u0 Hi0. simpl. destruct (decide (i0 = id)) as [->|Hne].
    + rewrite lookup_insert_eq. rewrite Hu in Hi0. injection Hi0 as <-. by eexists.
    + rewrite lookup_insert_ne by done. by exists u0.
Qed.

Lemma StartWorkerPool_kiosk_ok w numCooks :
  kiosk_ok w -> kiosk_ok (StartWorkerPool numCooks w).1.
Proof.
  intros Hok. pose proof Hok as (_ & _ & Hui & _).
  unfold StartWorkerPool. simpl.
  apply kiosk_ok_users; try done. intros i0 u0 ?. by exists u0.
Qed.

Lemma orders_lookup_Some id (m : list (Z * loc)) l :
  orders_lookup id m = Some l -> (id, l) ∈ m.
Proof.
  induction m as [|[k l'] m IH]; simpl; [done|].
  destruct (Z.eqb_spec k id) as [->|_].
  - intros [= ->]. by left.
  - intros H. right. by apply IH.
Qed.

(** What [GetByID] writes to an order that carries the name and role of its
    customer: at most the name of the cook. *)
Lemma GetByID_writes (s : Store) h id l :
  orders_lookup id (orders s) = Some l ->
  (exists u, users s !! OrderedBy (h !!! l) = Some u
             /\ CustomerName (h !!! l) = User_Name u
             /\ CustomerRole (h !!! l) = User_Role u) ->
  exists n,
    OrderRepository.GetByID id s h
    = ((s, <[l := set_CookName n (h !!! l)]> h), (Some l, None))
    /\ match AssignedCookUser (h !!! l) with
       | Some c =>
           match users s !! c with
           | Some cook => n = User_Name cook
           | None => n = CookName (h !!! l)
           end
       | None => n = CookName (h !!! l)
       end.
Proof.
  intros Hl (u & Hu & Hn & Hr). unfold OrderRepository.GetByID. rewrite Hl.
  unfold UserRepository.GetByID. rewrite Hu. cbn [snd].
  assert (set_CustomerRole (User_Role u) (set_CustomerName (User_Name u) (h !!! l))
          = h !!! l) as ->.
  { destruct (h !!! l). simpl in *. by subst. }
  destruct (AssignedCookUser (h !!! l)) as [c|] eqn:Hc.
  - destruct (users s !! c) as [cook|] eqn:Hcook; cbn [snd].
    + by exists (User_Name cook).
    + exists (CookName (h !!! l)). split; [|done].
      by destruct (h !!! l).
  - exists (CookName (h !!! l)). split; [|done]. by destruct (h !!! l).
Qed.

Lemma GetOrder_kiosk_ok w orderID :
  kiosk_ok w -> kiosk_ok (GetOrder orderID w).1.
Proof.
  intros Hok.
  pose proof Hok as ((Hidx & Hsz & Hs & Hb) & Hal & Hui & [Hnd Hun] & Hcs & Hst).
  unfold GetOrder. simpl. unfold on_store_heap.
  destruct (orders_lookup orderID (orders (store (w_store w)))) as [l|] eqn:Hl.
  - destruct (GetByID_writes (store (w_store w)) (w_heap w) orderID l Hl) as (n & -> & _).
    { apply orders_lookup_Some in Hl. unfold customers_synced in Hcs.
      rewrite Forall_forall in Hcs. apply (Hcs _ Hl). }
    simpl.
    apply (kiosk_ok_step w);
      [done|done|done|exact Hui|intros i0 u0 Hu0; by exists u0|..|done|done|done|done|].
    + intros x. by apply write_allocated.
    + intros x. by apply write_keeps.
    + intros x. left. destruct (decide (l = x)) as [->|Hne].
      * by rewrite lookup_total_insert_eq.
      * by rewrite lookup_total_insert_ne.
    + eapply Forall_impl; [exact Hun|]. intros x Hx. simpl in *.
      destruct (decide (l = x)) as [->|Hne].
      * by rewrite lookup_total_insert_eq.
      * by rewrite lookup_total_insert_ne.
  - unfold OrderRepository.GetByID. rewrite Hl. simpl.
    apply kiosk_ok_users; try done. intros i0 u0 ?. by exists u0.
Qed.

Lemma find_duplicate_None seen ids :
  find_duplicate seen ids = None
  <-> NoDup ids /\ Forall (fun id => id ∉ seen) ids.
Proof.
  revert seen. induction ids as [|id ids IH]; intros seen; simpl.
  - split; [intros _; split; constructor|done].
  - destruct (bool_decide_reflect (id ∈ seen)) as [Hin|Hout].
    + split; [done|]. intros [_ HF]. apply Forall_cons in HF as [? _]. done.
    + rewrite IH. rewrite NoDup_cons, Forall_cons. split.
      * intros [Hnd HF]. repeat split; try done.
        -- intros Hid. rewrite Forall_forall in HF. apply (HF id Hid).
           apply elem_of_union. left. by apply elem_of_singleton.
        -- eapply Forall_impl; [exact HF|]. intros x Hx Hs. simpl in Hx.
           apply Hx, elem_of_union. by right.
      * intros [[Hid Hnd] [_ HF]]. split; [done|].
        apply Forall_forall. intros x Hx. rewrite Forall_forall in HF.
        specialize (HF x Hx). assert (x <> id) by (by intros ->).
        intros Hu. apply elem_of_union in Hu as [Hu|Hu]; [|done].
        by apply elem_of_singleton in Hu.
Qed.

Lemma find_duplicate_Some seen ids id :
  find_duplicate seen ids = Some id ->
  id ∈ ids /\ (id ∈ seen \/ ~ NoDup ids).
Proof.
  revert seen. induction ids as [|x ids IH]; intros seen; simpl; [done|].
  destruct (bool_decide_reflect (x ∈ seen)) as [Hin|Hout].
  - intros [= ->]. split; [by left|by left].
  - intros H. apply IH in H as [Hid Hor]. split; [by right|].
    destruct Hor as [Hs|Hnd].
    + apply elem_of_union in Hs as [Hs|Hs].
      * apply elem_of_singleton in Hs as ->. right. intros Hnd.
        apply NoDup_cons in Hnd as [? _]. done.
      * by left.
    + right. intros Hnd'. apply NoDup_cons in Hnd' as [_ ?]. done.
Qed.

Lemma check_foods_spec r ids :
  exists e, check_foods ids r = Returns r e
            /\ (e = None
                <-> Forall (fun id => exists f, foods r !! id = Some f
                                               /\ Food_IsDeleted f = false) ids).
Proof.
  induction ids as [|id ids IH]; simpl.
  - exists None. split; [done|]. split; [constructor|done].
  - unfold FoodRepository.GetByID.
    destruct (foods r !! id) as [f|] eqn:Hf.
    + destruct (Food_IsDeleted f) eqn:Hd.
      * eexists. split; [done|]. split; [done|].
        intros HF. apply Forall_cons in HF as [(f' & Hf' & Hd') _].
        rewrite Hf in Hf'. injection Hf' as <-. congruence.
      * destruct IH as (e & -> & IH). exists e. split; [done|].
        rewrite IH, Forall_cons. split; [|tauto]. intros ?. split; [|done].
        by exists f.
    + eexists. split; [done|]. split; [done|].
      intros HF. apply Forall_cons in HF as [(f' & Hf' & _) _]. congruence.
Qed.

Lemma validateFoodIDs_spec r foodIDs :
  exists e, validateFoodIDs foodIDs r = Returns r e
            /\ (e = None <-> valid_foods r foodIDs).
Proof.
  unfold validateFoodIDs, valid_foods.
  destruct foodIDs as [|id ids].
  { simpl. eexists. split; [done|]. split; [done|]. by intros [? _]. }
  assert ((Z.of_nat (length (id :: ids)) =? 0) = false) as ->.
  { apply Z.eqb_neq. simpl. lia. }
  destruct (find_duplicate ∅ (id :: ids)) as [d|] eqn:Hd.
  - eexists. split; [done|]. split; [done|]. intros (_ & Hnd & _).
    apply find_duplicate_Some in Hd as [_ [He|He]]; [|done].
    by apply elem_of_empty in He.
  - apply find_duplicate_None in Hd as [Hnd _].
    destruct (check_foods_spec r (id :: ids)) as (e & -> & He).
    exists e. split; [done|]. rewrite He. split; [by intros ?|by intros (_ & _ & ?)].
Qed.

Lemma orders_insert_new id l (m : list (Z * loc)) :
  id ∉ map fst m -> orders_insert id l m = m ++ [(id, l)].
Proof.
  induction m as [|[k l'] m IH]; simpl; [done|].
  intros Hid. destruct (Z.eqb_spec k id) as [->|_].
  - exfalso. apply Hid. by left.
  - rewrite IH; [done|]. intros ?. apply Hid. by right.
Qed.

Lemma orders_allocated_new w :
  orders_allocated w ->
  (order_nextID (w_store w) ∉ map fst (orders (store (w_store w))))
  /\ (fresh (dom (w_heap w)) ∉ map snd (orders (store (w_store w)))).
Proof.
  intros Hal. unfold orders_allocated in Hal. rewrite Forall_forall in Hal. split.
  - intros Hin. apply list_elem_of_fmap in Hin as [[k l] [Hk Hin]].
    apply Hal in Hin as [Hlt _]. simpl in *. lia.
  - intros Hin. apply list_elem_of_fmap in Hin as [[k l] [Hl Hin]].
    apply Hal in Hin as [_ Hs]. simpl in *. subst l.
    apply elem_of_dom in Hs. by apply is_fresh in Hs.
Qed.

Lemma CreateOrder_refuses w customerID foodIDs :
  (users (store (w_store w)) !! customerID = None ->
     CreateOrder customerID foodIDs w
     = Returns w (None, Some (ErrorfWrap "customer not found"
                                (ErrorfInt "user not found" customerID))))
  /\ (forall u, users (store (w_store w)) !! customerID = Some u ->
       IsDeleted u = true ->
       CreateOrder customerID foodIDs w
       = Returns w (None, Some (Errorf "customer is deleted")))
  /\ (forall u, users (store (w_store w)) !! customerID = Some u ->
       IsDeleted u = false -> IsCustomer u = false ->
       CreateOrder customerID foodIDs w
       = Returns w (None, Some (Errorf "user is not a customer")))
  /\ (forall u, active_customer w customerID u -> ~ valid_foods (w_store w) foodIDs ->
       exists e, validateFoodIDs foodIDs (w_store w) = Returns (w_store w) (Some e)
                 /\ CreateOrder customerID foodIDs w = Returns w (None, Some e)).
Proof.
  destruct w as [h r pq ws]. unfold active_customer. simpl. unfold CreateOrder.
  cbn [GetByID memory_full_UserRepository w_store w_heap orderQueue workers].
  unfold on_store, UserRepository.GetByID.
  split; [|split; [|split]].
  - intros ->. by destruct r as [[]].
  - intros u -> Hd. rewrite Hd. by destruct r as [[]].
  - intros u -> Hd Hc. rewrite Hd, Hc. by destruct r as [[]].
  - intros u (-> & Hd & Hc) Hv. rewrite Hd, Hc. cbn [negb].
    assert (with_store (store r) r = r) as -> by (by destruct r as [[]]).
    destruct (validateFoodIDs_spec r foodIDs) as (e & He & Hiff).
    rewrite He. destruct e as [e|]; [by exists e|].
    exfalso. apply Hv. by apply Hiff.
Qed.

Lemma CreateOrder_places w customerID u foodIDs :
  orders_allocated w -> active_customer w customerID u ->
  valid_foods (w_store w) foodIDs ->
  CreateOrder customerID foodIDs w
  = Returns (placed w customerID u foodIDs) (Some (fresh (dom (w_heap w))), None).
Proof.
  intros Hal (Hu & Hd & Hc) Hv. destruct (orders_allocated_new w Hal) as [Hid _].
  destruct w as [h r pq ws]. simpl in *. unfold CreateOrder, placed.
  cbn [GetByID memory_full_UserRepository w_store w_heap orderQueue workers].
  unfold on_store, UserRepository.GetByID. rewrite Hu, Hd, Hc. cbn [negb].
  assert (with_store (store r) r = r) as -> by (by destruct r as [[]]).
  destruct (validateFoodIDs_spec r foodIDs) as (e & He & Hiff).
  rewrite He. rewrite (proj2 Hiff Hv).
  cbn [order_Create memory_OrderRepositoryAdmin]. unfold OrderRepository.Create.
  rewrite lookup_total_insert_eq.
  change (String.eqb (Status (set_ID (order_nextID r)
            (mkOrder 0 OrderStatusPending None customerID None "" "" ""))) "")
    with false. cbv iota.
  rewrite orders_insert_new by done.
  assert ((0 <? Z.of_nat (length foodIDs)) = true) as ->.
  { apply Z.ltb_lt. destruct Hv as [Hne _]. destruct foodIDs; [done|]. simpl. lia. }
  rewrite lookup_total_insert_eq. rewrite !insert_insert_eq.
  unfold Enqueue, isVIPOrder. rewrite !lookup_total_insert_eq.
  cbn [CustomerRole set_CustomerRole new_order].
  destruct (String.eqb (User_Role u) RoleVIPCustomer); reflexivity.
Qed.

Lemma Enqueue_queued h l pq :
  queued (Enqueue h (Some l) pq).1 ≡ₚ l :: queued pq.
Proof.
  unfold Enqueue, queued. destruct (isVIPOrder h l); simpl.
  - rewrite <- app_assoc. simpl. by rewrite <- Permutation_middle.
  - rewrite app_assoc. by rewrite <- Permutation_cons_append.
Qed.

Lemma orders_lookup_app_l k (m m' : list (Z * loc)) l :
  orders_lookup k m = Some l -> orders_lookup k (m ++ m') = Some l.
Proof.
  induction m as [|[k' l'] m IH]; simpl; [done|].
  destruct (k' =? k); [done|apply IH].
Qed.

Lemma orders_lookup_app_r k (m : list (Z * loc)) l :
  k ∉ map fst m -> orders_lookup k (m ++ [(k, l)]) = Some l.
Proof.
  induction m as [|[k' l'] m IH]; simpl; intros Hk.
  - by rewrite Z.eqb_refl.
  - destruct (Z.eqb_spec k' k) as [->|_].
    + exfalso. apply Hk. by left.
    + apply IH. intros ?. apply Hk. by right.
Qed.

Lemma placed_kiosk_ok w customerID u foodIDs :
  kiosk_ok w -> users (store (w_store w)) !! customerID = Some u ->
  kiosk_ok (placed w customerID u foodIDs).
Proof.
  intros Hok Hu.
  pose proof Hok as (((Hnk & Hid) & Hsz & Hs & Hb) & Hal & Hui & [Hnd Hun] & Hcs & Hst).
  destruct (orders_allocated_new w Hal) as [Hoid Hl].
  destruct w as [h r pq ws]. unfold view, queue_backed in *. simpl in *.
  set (l := fresh (dom h)) in *. set (o := new_order r customerID u).
  assert (h !! l = None) as Hfresh.
  { apply not_elem_of_dom. apply is_fresh. }
  assert (forall x : loc, is_Some (h !! x) -> <[l := o]> h !!! x = h !!! x) as Hsame.
  { intros x Hx. rewrite lookup_total_insert_ne; [done|].
    intros <-. rewrite Hfresh in Hx. by destruct Hx. }
  assert (forall kl : Z * loc, kl ∈ orders (store r) -> is_Some (h !! kl.2)) as Hst_al.
  { intros kl Hkl. unfold orders_allocated in Hal. rewrite Forall_forall in Hal.
    by apply Hal. }
  assert (forall x : loc, x ∈ queued pq -> is_Some (h !! x)) as Hq_al.
  { intros x Hx. rewrite Forall_forall in Hb. specialize (Hb x Hx).
    apply orders_lookup_Some in Hb. by apply (Hst_al _ Hb). }
  assert (l ∉ queued pq) as Hlq.
  { intros Hx. apply Hq_al in Hx. rewrite Hfresh in Hx. by destruct Hx. }
  unfold placed. cbn [w_heap w_store orderQueue workers]. fold l. fold o.
  split; [|split; [|split; [|split; [|split]]]].
  - unfold world_ok, store_indexed, queue_backed, view. cbn [w_heap w_store orderQueue workers store users orders order_nextID user_nextID fst snd].
    split; [split|split; [|split]].
    + rewrite map_app. simpl. apply NoDup_app. split; [done|]. split.
      * intros x Hx Hx'. apply list_elem_of_singleton in Hx'. by subst.
      * apply NoDup_singleton.
    + apply Forall_app. split.
      * apply Forall_forall. intros kl Hkl. rewrite Hsame by (by apply Hst_al).
        rewrite Forall_forall in Hid. by apply Hid.
      * apply Forall_singleton. simpl. by rewrite lookup_total_insert_eq.
    + by apply Enqueue_size_consistent.
    + apply Enqueue_tiers_sorted. destruct Hs as [Hv Hr]. split.
      * apply Forall_forall. intros x Hx. unfold isVIPOrder.
        rewrite Hsame; [rewrite Forall_forall in Hv; by apply Hv|].
        apply Hq_al, elem_of_app. by left.
      * apply Forall_forall. intros x Hx. unfold isVIPOrder.
        rewrite Hsame; [rewrite Forall_forall in Hr; by apply Hr|].
        apply Hq_al, elem_of_app. by right.
    + fold (queued (Enqueue (<[l:=o]> h) (Some l) pq).1).
      rewrite Enqueue_queued. apply Forall_cons. split.
      * rewrite lookup_total_insert_eq. simpl. by apply orders_lookup_app_r.
      * apply Forall_forall. intros x Hx. rewrite Hsame by (by apply Hq_al).
        apply orders_lookup_app_l. rewrite Forall_forall in Hb. by apply Hb.
  - unfold orders_allocated in *. cbn [w_heap w_store orderQueue workers store users orders order_nextID user_nextID fst snd]. apply Forall_app. split.
    + eapply Forall_impl; [exact Hal|]. intros [k x] [? ?]. simpl in *.
      split; [lia|]. by apply write_allocated.
    + apply Forall_singleton. simpl. split; [lia|]. by rewrite lookup_insert_eq.
  - done.
  - unfold queue_free. cbn [w_heap w_store orderQueue workers store users orders order_nextID user_nextID fst snd]. rewrite Enqueue_queued. split.
    + apply NoDup_cons. by split.
    + apply Forall_cons. split; [by rewrite lookup_total_insert_eq|].
      apply Forall_forall. intros x Hx. rewrite Hsame by (by apply Hq_al).
      rewrite Forall_forall in Hun. by apply Hun.
  - unfold customers_synced in *. cbn [w_heap w_store orderQueue workers store users orders order_nextID user_nextID fst snd]. apply Forall_app. split.
    + apply Forall_forall. intros kl Hkl. rewrite Hsame by (by apply Hst_al).
      rewrite Forall_forall in Hcs. by apply Hcs.
    + apply Forall_singleton. simpl. rewrite lookup_total_insert_eq. simpl.
      by exists u.
  - unfold statuses_known in *. cbn [w_heap w_store orderQueue workers store users orders order_nextID user_nextID fst snd]. apply Forall_app. split.
    + apply Forall_forall. intros kl Hkl. rewrite Hsame by (by apply Hst_al).
      rewrite Forall_forall in Hst. by apply Hst.
    + apply Forall_singleton. simpl. rewrite lookup_total_insert_eq. simpl.
      split; [by repeat constructor|done].
Qed.

Lemma CreateOrder_kiosk_ok w customerID foodIDs :
  kiosk_ok w ->
  exists w' a, CreateOrder customerID foodIDs w = Returns w' a /\ kiosk_ok w'.
Proof.
  intros Hok. pose proof Hok as (_ & Hal & _).
  destruct (CreateOrder_refuses w customerID foodIDs) as (H1 & H2 & H3 & H4).
  destruct (users (store (w_store w)) !! customerID) as [u|] eqn:Hu; [|by eauto].
  destruct (IsDeleted u) eqn:Hd; [by eauto|].
  destruct (IsCustomer u) eqn:Hc; [|by eauto].
  assert (active_customer w customerID u) as Hcust by done.
  destruct (validateFoodIDs_spec (w_store w) foodIDs) as (e & He & Hiff).
  destruct e as [e|].
  - destruct (H4 u Hcust) as (e' & _ & ->); [|by eauto].
    intros Hv. apply Hiff in Hv. done.
  - rewrite (CreateOrder_places w customerID u foodIDs Hal Hcust) by (by apply Hiff).
    eexists _, _. split; [done|]. by apply placed_kiosk_ok.
Qed.

Lemma run_call_kiosk_ok c w :
  kiosk_ok w -> exists w', run_call c w = Some w' /\ kiosk_ok w'.
Proof.
  intros Hok. destruct c; cbn [run_call].
  - eexists. split; [done|]. by apply CreateUser_kiosk_ok.
  - eexists. split; [done|]. by apply CreateFood_kiosk_ok.
  - destruct (CreateCook_kiosk_ok w name Hok) as (w' & a & -> & ?). by exists w'.
  - destruct (RemoveCook_kiosk_ok w now id Hok) as (w' & a & -> & ?). by exists w'.
  - destruct (ReinstateCook_kiosk_ok w id Hok) as (w' & a & -> & ?). by exists w'.
  - destruct (AcceptOrder_kiosk_ok w id Hok) as (w' & a & -> & ?). by exists w'.
  - eexists. split; [done|]. by apply processOrder_kiosk_ok.
  - eexists. split; [done|]. by apply StartWorkerPool_kiosk_ok.
  - destruct (CreateOrder_kiosk_ok w customerID foodIDs Hok) as (w' & a & -> & ?).
    by exists w'.
  - eexists. split; [done|]. by apply GetOrder_kiosk_ok.
Qed.

Lemma run_calls_kiosk_ok cs w :
  kiosk_ok w -> exists w', run_calls cs w = Some w' /\ kiosk_ok w'.
Proof.
  revert w. induction cs as [|c cs IH]; intros w Hok; cbn [run_calls]; [by exists w|].
  destruct (run_call_kiosk_ok c w Hok) as (w1 & -> & Hok1). by apply IH.
Qed.

Lemma NewKiosk_ok : kiosk_ok NewKiosk.
Proof.
  unfold kiosk_ok, NewKiosk, world_ok, store_indexed, queue_backed, orders_allocated,
    users_indexed, queue_free, customers_synced, statuses_known, size_consistent,
    tiers_sorted, queued. simpl.
  repeat split; try constructor; try done.
Qed.

End kiosk_calls.

(** ** The sample kiosk *)

Lemma sample_kiosk_ok : kiosk_ok sample.kiosk.
Proof.
  destruct (run_calls_kiosk_ok sample.opening NewKiosk NewKiosk_ok) as (w' & Hrun & Hok).
  unfold sample.kiosk. by rewrite Hrun.
Qed.

Lemma sample_serving_kiosk_ok : kiosk_ok sample.serving_kiosk.
Proof.
  destruct (AcceptOrder_kiosk_ok sample.kiosk 3 sample_kiosk_ok) as (w' & a & HA & Hok).
  unfold sample.serving_kiosk. by rewrite HA.
Qed.
